(** * Node registration (lib/auth/register.go)

    A shallow embedding of the join, rotation and local issuance paths of
    lib/auth/register.go.  The functions of that file talk to the outside
    world (files, TLS clients, the auth server, the logger); here every such
    call is an event of a small free monad, so that a function of the source
    becomes a finite tree of calls.  A tree is read in two ways: [traces]
    relates it to every sequence of calls and answers it can produce,
    whatever the outside world answers, and [run] executes it against a
    concrete world. *)

From Stdlib Require Import Strings.String Strings.Ascii Strings.Byte List Bool NArith Arith Lia.
Import ListNotations.
Local Open Scope string_scope.
Local Open Scope list_scope.


(** ** Go values *)

(** A Go [[]byte]. *)
Definition bytes := list byte.

(** Go's [string(b)] and [[]byte(s)]. *)
Definition string_of_bytes (b : bytes) : string := string_of_list_byte b.
Definition bytes_of_string (s : string) : bytes := list_byte_of_string s.

(** A Go [error] value that is not nil.  [BadParameter] is what
    [trace.BadParameter] builds, [Failure] stands for an error produced by a
    collaborator, [Annotated] for [trace.Wrap(err, format, arg)]. *)
Inductive error : Type :=
| BadParameter (msg : string)
| Failure (descr : string)
| Annotated (e : error) (format arg : string).

(** A Go pair [(value, error)]: either the value or a non-nil error. *)
Inductive result (A : Type) : Type :=
| Ok (a : A)
| Err (e : error).
Arguments Ok {A} a.
Arguments Err {A} e.

Module trace.
(** [trace.Wrap(err)] attaches the call stack and keeps the error. *)
Definition Wrap (e : error) : error := e.
(** [trace.Wrap(err, format, arg)]. *)
Definition WrapMsg (e : error) (format arg : string) : error :=
  Annotated e format arg.
End trace.

(** ** Go's [strings] package, as far as register.go uses it *)
Module strings.

(** [strings.HasPrefix(s, prefix)]. *)
Definition HasPrefix (s pre : string) : bool := String.prefix pre s.

Definition codes (s : string) : list N := map N_of_ascii (list_ascii_of_string s).
Definition of_codes (l : list N) : string :=
  string_of_list_ascii (map ascii_of_N l).

(** The UTF-8 encodings of the runes for which [unicode.IsSpace] holds:
    tab, line feed, vertical tab, form feed, carriage return, space,
    U+0085, U+00A0, U+1680, U+2000 to U+200A, U+2028, U+2029, U+202F,
    U+205F and U+3000. *)
Definition spaceRunes : list (list N) :=
  [ [9]; [10]; [11]; [12]; [13]; [32];
    [194; 133]; [194; 160];
    [225; 154; 128];
    [226; 128; 128]; [226; 128; 129]; [226; 128; 130]; [226; 128; 131];
    [226; 128; 132]; [226; 128; 133]; [226; 128; 134]; [226; 128; 135];
    [226; 128; 136]; [226; 128; 137]; [226; 128; 138];
    [226; 128; 168]; [226; 128; 169]; [226; 128; 175];
    [226; 129; 159];
    [227; 128; 128] ]%N.

Fixpoint isPrefix (p s : list N) : bool :=
  match p, s with
  | [], _ => true
  | a :: p', b :: s' => N.eqb a b && isPrefix p' s'
  | _ :: _, [] => false
  end.

(** The encoding of a white space rune that [s] starts with, if any. *)
Definition leadingSpace (runes : list (list N)) (s : list N) : option (list N) :=
  find (fun p => isPrefix p s) runes.

(** Drop white space runes from the front, one rune per unit of fuel. *)
Fixpoint dropSpaces (runes : list (list N)) (fuel : nat) (s : list N) : list N :=
  match fuel with
  | O => s
  | S fuel' =>
      match leadingSpace runes s with
      | Some p => dropSpaces runes fuel' (skipn (length p) s)
      | None => s
      end
  end.

Definition trimLeft (s : list N) : list N :=
  dropSpaces spaceRunes (length s) s.

(** From the back: the same on the reversed string with the reversed
    encodings. *)
Definition trimRight (s : list N) : list N :=
  rev (dropSpaces (map (@rev N) spaceRunes) (length s) (rev s)).

(** [strings.TrimSpace(s)]: [s] without its leading and trailing white
    space, as defined by Unicode. *)
Definition TrimSpace (s : string) : string :=
  of_codes (trimRight (trimLeft (codes s))).

(** [spaces runes l]: [l] is a sequence of encodings taken from [runes]. *)
Definition spaces (runes : list (list N)) (l : list N) : Prop :=
  exists ps : list (list N), Forall (fun p => In p runes) ps /\ l = concat ps.

(** [Trimmed s out]: [out] is what is left of [s] between a run of white
    space runes at the front and a run of white space runes at the back
    (read backwards with the reversed encodings), and [out] itself neither
    starts nor ends with a white space rune. *)
Definition Trimmed (s out : string) : Prop :=
  exists l r : list N,
    codes s = l ++ codes out ++ r /\
    spaces spaceRunes l /\
    spaces (map (@rev N) spaceRunes) (rev r) /\
    leadingSpace spaceRunes (codes out) = None /\
    leadingSpace (map (@rev N) spaceRunes) (rev (codes out)) = None.

End strings.

(** ** The structures of the package *)

(** [teleport.Role] is a string, [teleport.Roles] a slice of them. *)
Definition Role := string.
Definition Roles := list Role.

(** Modelled from the spec: [utils.NetAddr], declared outside this file, is
    an address of an auth server; only lists of them are passed around. *)
Definition NetAddr := string.

(** Modelled from the spec: [IdentityID], declared outside this file, is the
    host UUID, the node name and the role of who is joining. *)
Module IdentityID.
Record t : Type := Build { Role : Role; HostUUID : string; NodeName : string }.
End IdentityID.

(** The fields of [x509.Certificate] the file relies on: the encoded
    certificate, the common name of its subject (logged) and the encoded
    public key information (what a pin is a hash of). *)
Module Certificate.
Record t : Type := Build {
  Raw : bytes;
  SubjectCommonName : string;
  RawSubjectPublicKeyInfo : bytes }.

Definition eq_dec (a b : t) : {a = b} + {a <> b}.
Proof.
  decide equality;
    try apply (list_eq_dec Byte.byte_eq_dec); apply string_dec.
Defined.
End Certificate.

(** [x509.CertPool]: the certificates of the pool, in the order added. *)
Module x509.
Definition CertPool := list Certificate.t.
Definition NewCertPool : CertPool := [].
(** [AddCert] skips a certificate the pool already holds. *)
Definition AddCert (s : CertPool) (cert : Certificate.t) : CertPool :=
  if in_dec Certificate.eq_dec cert s then s else s ++ [cert].
End x509.

(** The fields of [tls.Config] the file sets; [RootCAs = None] is Go's nil
    pool, for which the host's root set is used. *)
Module tls.
Record Config : Type := Build {
  CipherSuites : list N;
  InsecureSkipVerify : bool;
  RootCAs : option x509.CertPool }.

Definition setInsecureSkipVerify (b : bool) (c : Config) : Config :=
  Build (CipherSuites c) b (RootCAs c).
Definition setRootCAs (p : x509.CertPool) (c : Config) : Config :=
  Build (CipherSuites c) (InsecureSkipVerify c) (Some p).
End tls.

(** [PackedKeys]: private key, SSH host certificate, TLS certificate and the
    certificate authorities that issued it. *)
Module PackedKeys.
Record t : Type := Build {
  Key : bytes;
  Cert : bytes;
  TLSCert : bytes;
  TLSCACerts : list bytes }.
End PackedKeys.

(** The fields of [GenerateServerKeysRequest] that register.go fills; a field
    left out of a Go literal has its zero value, the nil slice. *)
Module GenerateServerKeysRequest.
Record t : Type := Build {
  HostID : string;
  NodeName : string;
  Roles : Roles;
  AdditionalPrincipals : list string;
  PublicTLSKey : bytes;
  PublicSSHKey : bytes }.
End GenerateServerKeysRequest.

Module RegisterUsingTokenRequest.
Record t : Type := Build {
  Token : string;
  HostID : string;
  NodeName : string;
  Role : Role;
  AdditionalPrincipals : list string;
  PublicTLSKey : bytes;
  PublicSSHKey : bytes }.
End RegisterUsingTokenRequest.

(** The answer of [GetLocalCA]; the file reads its [TLSCA] field. *)
Module LocalCAResponse.
Record t : Type := Build { TLSCA : bytes }.
End LocalCAResponse.

Module RegisterParams.
Record t : Type := Build {
  DataDir : string;
  Token : string;
  ID : IdentityID.t;
  Servers : list NetAddr;
  AdditionalPrincipals : list string;
  PrivateKey : bytes;
  PublicTLSKey : bytes;
  PublicSSHKey : bytes;
  CipherSuites : list N;
  CAPath : string;
  CAPin : string;
  InsecureSkipCAVerification : bool }.
End RegisterParams.

(** Handles of the objects that live outside: a [*Client] built by
    [NewTLSClient], a [ClientI] handed in by the caller, the [*AuthServer]
    of the process. *)
Definition Client := nat.
Definition ClientI := nat.
Definition AuthServer := nat.

Module ReRegisterParams.
Record t : Type := Build {
  Client : ClientI;
  ID : IdentityID.t;
  AdditionalPrincipals : list string;
  PrivateKey : bytes;
  PublicTLSKey : bytes;
  PublicSSHKey : bytes }.
End ReRegisterParams.

(** ** Calls to the outside world *)

Inductive Event : Type :=
| E_ReadFile (filename : string)                       (* ioutil.ReadFile *)
| E_ReadPath (path : string)                           (* utils.ReadPath *)
| E_Warnf (msg : string)                               (* log.Warnf *)
| E_Infof (format arg : string)                        (* log.Infof *)
| E_NewTLSClient (servers : list NetAddr) (cfg : tls.Config)
| E_GetLocalCA (clt : Client)
| E_RegisterUsingToken (clt : Client) (req : RegisterUsingTokenRequest.t)
| E_Close (clt : Client)
| E_GenerateServerKeys (clt : ClientI) (req : GenerateServerKeysRequest.t)
| E_AuthServerGenerateServerKeys (a : AuthServer) (req : GenerateServerKeysRequest.t).

(** What a call gives back. *)
Definition Answer (e : Event) : Type :=
  match e with
  | E_ReadFile _ => result bytes
  | E_ReadPath _ => result bytes
  | E_Warnf _ => unit
  | E_Infof _ _ => unit
  | E_NewTLSClient _ _ => result Client
  | E_GetLocalCA _ => result LocalCAResponse.t
  | E_RegisterUsingToken _ _ => result PackedKeys.t
  | E_Close _ => option error
  | E_GenerateServerKeys _ _ => result PackedKeys.t
  | E_AuthServerGenerateServerKeys _ _ => result PackedKeys.t
  end.

(** A computation: it returns, or makes a call and goes on with the answer. *)
Inductive Prog (R : Type) : Type :=
| Ret (r : R)
| Vis (e : Event) (k : Answer e -> Prog R).
Arguments Ret {R} r.
Arguments Vis {R} e k.

Fixpoint bind {A B : Type} (p : Prog A) (f : A -> Prog B) : Prog B :=
  match p with
  | Ret a => f a
  | Vis e k => Vis e (fun x => bind (k x) f)
  end.

Definition call (e : Event) : Prog (Answer e) := Vis e (fun x => Ret x).

Declare Scope prog_scope.
Delimit Scope prog_scope with prog.
Notation "x <- p ;; q" := (bind p (fun x => q))
  (at level 61, p at next level, right associativity) : prog_scope.
Notation "p ;;; q" := (bind p (fun _ => q))
  (at level 61, right associativity) : prog_scope.
Local Open Scope prog_scope.

(** Go's [defer d] placed in front of [body]: [d] runs when [body] has
    computed what the function returns, and its own result is dropped. *)
Definition defer {X R : Type} (d : Prog X) (body : Prog R) : Prog R :=
  r <- body ;; d ;;; Ret r.

(** One call together with its answer. *)
Definition Entry : Type := { e : Event & Answer e }.
Definition entry (e : Event) (x : Answer e) : Entry := existT Answer e x.

(** [traces p t r]: [p] can make the calls of [t], get the answers of [t]
    and return [r]. *)
Fixpoint traces {R : Type} (p : Prog R) (t : list Entry) (r : R) : Prop :=
  match p with
  | Ret r0 => t = [] /\ r = r0
  | Vis e k => exists (x : Answer e) (t' : list Entry),
      t = entry e x :: t' /\ traces (k x) t' r
  end.

(** A concrete outside world: a state and an answer to every call. *)
Definition World (W : Type) : Type := forall e : Event, W -> Answer e * W.

Fixpoint run {R W : Type} (h : World W) (p : Prog R) (w : W) : list Entry * R :=
  match p with
  | Ret r => ([], r)
  | Vis e k =>
      let (x, w') := h e w in
      let (t, r) := run h (k x) w' in
      (entry e x :: t, r)
  end.


(** ** Collaborators that compute

    Functions of the repository that register.go calls and that live in
    other files: they are taken as they are declared, with any behaviour. *)
Class Collaborators : Type := {
  (** [Identity], the credentials of a node once assembled. *)
  Identity : Type;
  (** [ReadIdentityFromKeyPair(keyBytes, sshCertBytes, tlsCertBytes, tlsCACerts)]. *)
  ReadIdentityFromKeyPair : bytes -> bytes -> bytes -> list bytes -> result Identity;
  (** The method [HostID()] of [IdentityID], of type [(string, error)]. *)
  HostID : IdentityID.t -> result string;
  (** [tlsca.ParseCertificatePEM]. *)
  ParseCertificatePEM : bytes -> result Certificate.t;
  (** [utils.CheckSKPI(pin, cert)]: [None] is the nil error. *)
  CheckSKPI : string -> Certificate.t -> option error;
  (** [utils.TLSConfig(cipherSuites)]. *)
  TLSConfig : list N -> tls.Config }.

Section Register.

Context {collaborators : Collaborators}.

(** ** The functions of register.go *)

Definition LocalRegister (id : IdentityID.t) (authServer : AuthServer)
    (additionalPrincipals : list string) : Prog (result Identity) :=
  r <- call (E_AuthServerGenerateServerKeys authServer
         (GenerateServerKeysRequest.Build
            (IdentityID.HostUUID id)
            (IdentityID.NodeName id)
            [IdentityID.Role id]
            additionalPrincipals
            [] [])) ;;
  match r with
  | Err err => Ret (Err (trace.Wrap err))
  | Ok keys =>
      Ret (ReadIdentityFromKeyPair (PackedKeys.Key keys) (PackedKeys.Cert keys)
             (PackedKeys.TLSCert keys) (PackedKeys.TLSCACerts keys))
  end.

Definition readToken (token : string) : Prog (result string) :=
  if negb (strings.HasPrefix token "/") then Ret (Ok token)
  else
    r <- call (E_ReadFile token) ;;
    match r with
    | Err _ => Ret (Ok "")
    | Ok out => Ret (Ok (strings.TrimSpace (string_of_bytes out)))
    end.

Definition insecureRegisterClient (params : RegisterParams.t) : Prog (result Client) :=
  call (E_Warnf ("Joining remote cluster with insecure CA configuration to Auth Server. " ++
                 "This may open you up to a Man-In-The-Middle (MITM) attack if an attacker " ++
                 "has privileged network access. Proceed with caution.")) ;;;
  let tlsConfig := TLSConfig (RegisterParams.CipherSuites params) in
  let tlsConfig := tls.setInsecureSkipVerify true tlsConfig in
  r <- call (E_NewTLSClient (RegisterParams.Servers params) tlsConfig) ;;
  match r with
  | Err err => Ret (Err (trace.Wrap err))
  | Ok client => Ret (Ok client)
  end.

Definition pinRegisterClient (params : RegisterParams.t) : Prog (result Client) :=
  let tlsConfig := TLSConfig (RegisterParams.CipherSuites params) in
  let tlsConfig := tls.setInsecureSkipVerify true tlsConfig in
  r <- call (E_NewTLSClient (RegisterParams.Servers params) tlsConfig) ;;
  match r with
  | Err err => Ret (Err (trace.Wrap err))
  | Ok client =>
      defer (call (E_Close client))
        (r <- call (E_GetLocalCA client) ;;
         match r with
         | Err err => Ret (Err (trace.Wrap err))
         | Ok localCA =>
             match ParseCertificatePEM (LocalCAResponse.TLSCA localCA) with
             | Err err => Ret (Err (trace.Wrap err))
             | Ok tlsCA =>
                 match CheckSKPI (RegisterParams.CAPin params) tlsCA with
                 | Some err => Ret (Err (trace.Wrap err))
                 | None =>
                     call (E_Infof "Joining remote cluster %v with CA pin."
                                   (Certificate.SubjectCommonName tlsCA)) ;;;
                     let tlsConfig := TLSConfig (RegisterParams.CipherSuites params) in
                     let certPool := x509.NewCertPool in
                     let certPool := x509.AddCert certPool tlsCA in
                     let tlsConfig := tls.setRootCAs certPool tlsConfig in
                     r <- call (E_NewTLSClient (RegisterParams.Servers params) tlsConfig) ;;
                     match r with
                     | Err err => Ret (Err (trace.Wrap err))
                     | Ok client => Ret (Ok client)
                     end
                 end
             end
         end)
  end.

Definition pathRegisterClient (params : RegisterParams.t) : Prog (result Client) :=
  r <- call (E_ReadPath (RegisterParams.CAPath params)) ;;
  match r with
  | Err err => Ret (Err (trace.Wrap err))
  | Ok certBytes =>
      match ParseCertificatePEM certBytes with
      | Err err =>
          Ret (Err (trace.WrapMsg err "failed to parse certificate at %v"
                      (RegisterParams.CAPath params)))
      | Ok cert =>
          call (E_Infof "Joining remote cluster %v with CA file."
                        (Certificate.SubjectCommonName cert)) ;;;
          let tlsConfig := TLSConfig (RegisterParams.CipherSuites params) in
          let certPool := x509.NewCertPool in
          let certPool := x509.AddCert certPool cert in
          let tlsConfig := tls.setRootCAs certPool tlsConfig in
          r <- call (E_NewTLSClient (RegisterParams.Servers params) tlsConfig) ;;
          match r with
          | Err err => Ret (Err (trace.Wrap err))
          | Ok client => Ret (Ok client)
          end
      end
  end.

(** The request of [Register] (lines 113 to 121). *)
Definition registerRequest (params : RegisterParams.t) (tok : string)
  : RegisterUsingTokenRequest.t :=
  RegisterUsingTokenRequest.Build
    tok
    (IdentityID.HostUUID (RegisterParams.ID params))
    (IdentityID.NodeName (RegisterParams.ID params))
    (IdentityID.Role (RegisterParams.ID params))
    (RegisterParams.AdditionalPrincipals params)
    (RegisterParams.PublicTLSKey params)
    (RegisterParams.PublicSSHKey params).

(** What [Register] does once the [switch] has assigned [client, err]
    (lines 107 to 127). *)
Definition registerWith (params : RegisterParams.t) (tok : string)
    (built : result Client) : Prog (result Identity) :=
  match built with
  | Err err => Ret (Err (trace.Wrap err))
  | Ok client =>
      defer (call (E_Close client))
        (r <- call (E_RegisterUsingToken client (registerRequest params tok)) ;;
         match r with
         | Err err => Ret (Err (trace.Wrap err))
         | Ok keys =>
             Ret (ReadIdentityFromKeyPair (RegisterParams.PrivateKey params)
                    (PackedKeys.Cert keys) (PackedKeys.TLSCert keys)
                    (PackedKeys.TLSCACerts keys))
         end)
  end.

Definition noStrategy : error :=
  BadParameter ("to register node, either CA pin, CA path, " ++
                "or insecure configuration is required").

(** [Register] from the [switch] on (lines 93 to 127), with the token that
    [readToken] gave. *)
Definition registerFrom (params : RegisterParams.t) (tok : string)
  : Prog (result Identity) :=
  if RegisterParams.InsecureSkipCAVerification params then
    built <- insecureRegisterClient params ;; registerWith params tok built
  else if negb (RegisterParams.CAPin params =? "") then
    built <- pinRegisterClient params ;; registerWith params tok built
  else if negb (RegisterParams.CAPath params =? "") then
    built <- pathRegisterClient params ;; registerWith params tok built
  else
    Ret (Err noStrategy).

Definition Register (params : RegisterParams.t) : Prog (result Identity) :=
  r <- readToken (RegisterParams.Token params) ;;
  match r with
  | Err err => Ret (Err (trace.Wrap err))
  | Ok tok => registerFrom params tok
  end.

(** The request of [ReRegister] (lines 252 to 259). *)
Definition reRegisterRequest (params : ReRegisterParams.t) (hostID : string)
  : GenerateServerKeysRequest.t :=
  GenerateServerKeysRequest.Build
    hostID
    (IdentityID.NodeName (ReRegisterParams.ID params))
    [IdentityID.Role (ReRegisterParams.ID params)]
    (ReRegisterParams.AdditionalPrincipals params)
    (ReRegisterParams.PublicTLSKey params)
    (ReRegisterParams.PublicSSHKey params).

Definition ReRegister (params : ReRegisterParams.t) : Prog (result Identity) :=
  match HostID (ReRegisterParams.ID params) with
  | Err err => Ret (Err (trace.Wrap err))
  | Ok hostID =>
      r <- call (E_GenerateServerKeys (ReRegisterParams.Client params)
                   (reRegisterRequest params hostID)) ;;
      match r with
      | Err err => Ret (Err (trace.Wrap err))
      | Ok keys =>
          Ret (ReadIdentityFromKeyPair (ReRegisterParams.PrivateKey params)
                 (PackedKeys.Cert keys) (PackedKeys.TLSCert keys)
                 (PackedKeys.TLSCACerts keys))
      end
  end.

End Register.

(** ** Reading a trace *)

(** The clients built: [NewTLSClient(servers, cfg)] and what it returned. *)
Definition dialOf (en : Entry) : option (list NetAddr * tls.Config * result Client) :=
  let (e, x) := en in
  match e return Answer e -> option (list NetAddr * tls.Config * result Client) with
  | E_NewTLSClient servers cfg => fun x => Some (servers, cfg, x)
  | _ => fun _ => None
  end x.

(** The calls of [GetLocalCA]. *)
Definition fetchOf (en : Entry) : option (Client * result LocalCAResponse.t) :=
  let (e, x) := en in
  match e return Answer e -> option (Client * result LocalCAResponse.t) with
  | E_GetLocalCA clt => fun x => Some (clt, x)
  | _ => fun _ => None
  end x.

(** The calls of [RegisterUsingToken]. *)
Definition issuanceOf (en : Entry)
  : option (Client * RegisterUsingTokenRequest.t * result PackedKeys.t) :=
  let (e, x) := en in
  match e return Answer e -> option (Client * RegisterUsingTokenRequest.t * result PackedKeys.t) with
  | E_RegisterUsingToken clt req => fun x => Some (clt, req, x)
  | _ => fun _ => None
  end x.

(** The calls of [GenerateServerKeys] on a [ClientI]. *)
Definition generationOf (en : Entry)
  : option (ClientI * GenerateServerKeysRequest.t * result PackedKeys.t) :=
  let (e, x) := en in
  match e return Answer e -> option (ClientI * GenerateServerKeysRequest.t * result PackedKeys.t) with
  | E_GenerateServerKeys clt req => fun x => Some (clt, req, x)
  | _ => fun _ => None
  end x.

(** The calls of [ioutil.ReadFile]. *)
Definition fileReadOf (en : Entry) : option (string * result bytes) :=
  let (e, x) := en in
  match e return Answer e -> option (string * result bytes) with
  | E_ReadFile filename => fun x => Some (filename, x)
  | _ => fun _ => None
  end x.

Fixpoint collect {A : Type} (f : Entry -> option A) (t : list Entry) : list A :=
  match t with
  | [] => []
  | en :: t' =>
      match f en with
      | Some a => a :: collect f t'
      | None => collect f t'
      end
  end.

Definition dials := collect dialOf.
Definition fetches := collect fetchOf.
Definition issuances := collect issuanceOf.
Definition generations := collect generationOf.
Definition fileReads := collect fileReadOf.

(** A call that goes over the network: building a client, or any method of
    a client. *)
Definition isNetworkCall (en : Entry) : bool :=
  match projT1 en with
  | E_NewTLSClient _ _ | E_GetLocalCA _ | E_RegisterUsingToken _ _
  | E_Close _ | E_GenerateServerKeys _ _ => true
  | _ => false
  end.

Definition networkCalls (t : list Entry) : list Entry := filter isNetworkCall t.

(** The client an entry brings to life, the client an entry closes. *)
Definition opens (en : Entry) : option Client :=
  match dialOf en with
  | Some (_, _, Ok clt) => Some clt
  | _ => None
  end.

Definition closes (en : Entry) : option Client :=
  match projT1 en with
  | E_Close clt => Some clt
  | _ => None
  end.

Fixpoint removeFirst (c : Client) (l : list Client) : option (list Client) :=
  match l with
  | [] => None
  | d :: l' =>
      if Nat.eqb c d then Some l'
      else match removeFirst c l' with
           | Some l'' => Some (d :: l'')
           | None => None
           end
  end.

(** Follow the clients that are open along a trace.  [None]: some [Close]
    hit a client that was not open (never built, or closed before).
    [Some l]: the clients of [l] are still open at the end. *)
Fixpoint lifecycle (t : list Entry) (open : list Client) : option (list Client) :=
  match t with
  | [] => Some open
  | en :: t' =>
      match opens en, closes en with
      | Some clt, _ => lifecycle t' (clt :: open)
      | None, Some clt =>
          match removeFirst clt open with
          | Some open' => lifecycle t' open'
          | None => None
          end
      | None, None => lifecycle t' open
      end
  end.

(** How many times [clt] was built, how many times it was closed. *)
Definition built (clt : Client) (t : list Entry) : nat :=
  count_occ Nat.eq_dec (collect opens t) clt.
Definition closed (clt : Client) (t : list Entry) : nat :=
  count_occ Nat.eq_dec (collect closes t) clt.

(** The trust strategies, in the words of the design: insecure flag set,
    else CA pin non-empty, else CA path non-empty, else none. *)
Inductive Strategy : Type := Insecure | Pin | Path.

Definition selectStrategy (params : RegisterParams.t) : option Strategy :=
  if RegisterParams.InsecureSkipCAVerification params then Some Insecure
  else if negb (RegisterParams.CAPin params =? "") then Some Pin
  else if negb (RegisterParams.CAPath params =? "") then Some Path
  else None.

Definition strategyClient {collaborators : Collaborators} (s : Strategy)
  : RegisterParams.t -> Prog (result Client) :=
  match s with
  | Insecure => insecureRegisterClient
  | Pin => pinRegisterClient
  | Path => pathRegisterClient
  end.

(** The same parameters with another private key. *)
Definition withPrivateKey (key : bytes) (p : RegisterParams.t) : RegisterParams.t :=
  RegisterParams.Build
    (RegisterParams.DataDir p) (RegisterParams.Token p) (RegisterParams.ID p)
    (RegisterParams.Servers p) (RegisterParams.AdditionalPrincipals p)
    key
    (RegisterParams.PublicTLSKey p) (RegisterParams.PublicSSHKey p)
    (RegisterParams.CipherSuites p) (RegisterParams.CAPath p)
    (RegisterParams.CAPin p) (RegisterParams.InsecureSkipCAVerification p).

Definition withReRegisterPrivateKey (key : bytes) (p : ReRegisterParams.t)
  : ReRegisterParams.t :=
  ReRegisterParams.Build
    (ReRegisterParams.Client p) (ReRegisterParams.ID p)
    (ReRegisterParams.AdditionalPrincipals p)
    key
    (ReRegisterParams.PublicTLSKey p) (ReRegisterParams.PublicSSHKey p).

(** ** A test double

    One concrete outside world and one concrete set of collaborators, to run
    the functions on. *)
Module Fake.

(** Modelled from the spec: an [Identity] holds the private key, the SSH
    certificate, the TLS certificate and the CA chain. *)
Record Identity : Type := BuildIdentity {
  PrivateKey : bytes;
  SSHCert : bytes;
  TLSCert : bytes;
  CAChain : list bytes }.

(** Modelled from the spec: assembling combines the private key with the
    certificates of the bundle, and fails on an incomplete one. *)
Definition ReadIdentityFromKeyPair (keyBytes sshCertBytes tlsCertBytes : bytes)
    (tlsCACerts : list bytes) : result Identity :=
  match keyBytes, sshCertBytes with
  | [], _ => Err (BadParameter "PrivateKey: missing private key")
  | _, [] => Err (BadParameter "Cert: missing parameter")
  | _, _ => Ok (BuildIdentity keyBytes sshCertBytes tlsCertBytes tlsCACerts)
  end.

(** A [HostID()] for the double: the part of the host UUID in front of the
    first dot, an error when there is no dot. *)
Definition HostID (id : IdentityID.t) : result string :=
  match index 0 "." (IdentityID.HostUUID id) with
  | Some n => Ok (substring 0 n (IdentityID.HostUUID id))
  | None => Err (BadParameter "expected 2 parts in host UUID")
  end.

(** Certificates of the double are written in the clear: the whole input is
    the encoded certificate, its subject and its public key. *)
Definition ParseCertificatePEM (b : bytes) : result Certificate.t :=
  match b with
  | [] => Err (BadParameter "expected PEM-encoded block")
  | _ => Ok (Certificate.Build b (string_of_bytes b) b)
  end.

Definition fingerprint (cert : Certificate.t) : string :=
  "sha256:" ++ string_of_bytes (Certificate.RawSubjectPublicKeyInfo cert).

(** Modelled from the spec: the pin check computes the fingerprint of the
    public key of the certificate and compares it with the pin. *)
Definition CheckSKPI (pin : string) (cert : Certificate.t) : option error :=
  if fingerprint cert =? pin then None
  else Some (BadParameter "pin does not match").

Definition TLSConfig (cipherSuites : list N) : tls.Config :=
  tls.Build cipherSuites false None.

Definition collaborators : Collaborators :=
  Build_Collaborators Identity ReadIdentityFromKeyPair HostID ParseCertificatePEM
    CheckSKPI TLSConfig.

(** The authority of the double: the files of the node, the CA the servers
    hand out, what they issue, and whether they can be reached. *)
Record Authority : Type := BuildAuthority {
  files : list (string * bytes);
  localCA : result LocalCAResponse.t;
  issue : RegisterUsingTokenRequest.t -> result PackedKeys.t;
  generate : GenerateServerKeysRequest.t -> result PackedKeys.t;
  reachable : bool }.

Fixpoint lookup (name : string) (fs : list (string * bytes)) : result bytes :=
  match fs with
  | [] => Err (Failure "no such file or directory")
  | (n, b) :: fs' => if n =? name then Ok b else lookup name fs'
  end.

(** The state of the double is the number of clients built so far, which is
    also the handle of the next one. *)
Definition world (a : Authority) : World nat :=
  fun e =>
    match e return nat -> Answer e * nat with
    | E_ReadFile filename => fun w => (lookup filename (files a), w)
    | E_ReadPath path => fun w => (lookup path (files a), w)
    | E_Warnf _ => fun w => (tt, w)
    | E_Infof _ _ => fun w => (tt, w)
    | E_NewTLSClient _ _ =>
        fun w => if reachable a then (Ok w, S w)
                 else (Err (Failure "connection refused"), w)
    | E_GetLocalCA _ => fun w => (localCA a, w)
    | E_RegisterUsingToken _ req => fun w => (issue a req, w)
    | E_Close _ => fun w => (None, w)
    | E_GenerateServerKeys _ req => fun w => (generate a req, w)
    | E_AuthServerGenerateServerKeys _ req => fun w => (generate a req, w)
    end.

Definition B1 : PackedKeys.t :=
  PackedKeys.Build (bytes_of_string "authority-key") (bytes_of_string "ssh-cert-1")
    (bytes_of_string "tls-cert-1") [bytes_of_string "CA-AAA"].

(** An authority whose CA has the fingerprint [sha256:CA-AAA], that issues
    [B1] for the token [t1] and turns every other token down. *)
Definition authority : Authority :=
  BuildAuthority
    [("/etc/token", bytes_of_string ("mytoken" ++ String "010" ""));
     ("/etc/ca.pem", bytes_of_string "CA-AAA")]
    (Ok (LocalCAResponse.Build (bytes_of_string "CA-AAA")))
    (fun req =>
       if (RegisterUsingTokenRequest.Token req =? "t1")
          || (RegisterUsingTokenRequest.Token req =? "mytoken")
       then Ok B1 else Err (Failure "token rejected"))
    (fun _ => Ok B1)
    true.

Definition nodeID : IdentityID.t :=
  IdentityID.Build "Node" "host1.example" "node-1".

Definition params (token caPath caPin : string) (insecure : bool) : RegisterParams.t :=
  RegisterParams.Build "/var/lib/teleport" token nodeID ["auth:3025"] ["alias"]
    (bytes_of_string "node-key") (bytes_of_string "tls-pub") (bytes_of_string "ssh-pub")
    [49199%N] caPath caPin insecure.

(** The same bundle as [B1] but for the private key. *)
Definition B2 : PackedKeys.t :=
  PackedKeys.Build (bytes_of_string "another-key") (PackedKeys.Cert B1)
    (PackedKeys.TLSCert B1) (PackedKeys.TLSCACerts B1).

(** The same authority, generating [B2] where [authority] generates [B1]. *)
Definition authority2 : Authority :=
  BuildAuthority (files authority) (localCA authority) (issue authority)
    (fun _ => Ok B2) (reachable authority).

Definition rotation (hostUUID : string) : ReRegisterParams.t :=
  ReRegisterParams.Build 7 (IdentityID.Build "Node" hostUUID "node-1") ["alias"]
    (bytes_of_string "node-key") (bytes_of_string "tls-pub") (bytes_of_string "ssh-pub").

(** The functions of register.go run against the double, from a state in
    which no client was built yet. *)
Definition resolve (a : Authority) (token : string) : list Entry * result string :=
  run (world a) (readToken token) 0.
Definition join (a : Authority) (p : RegisterParams.t) : list Entry * result Identity :=
  run (world a) (@Register collaborators p) 0.
Definition rejoin (a : Authority) (p : ReRegisterParams.t) : list Entry * result Identity :=
  run (world a) (@ReRegister collaborators p) 0.
Definition localJoin (a : Authority) (id : IdentityID.t) (principals : list string)
  : list Entry * result Identity :=
  run (world a) (@LocalRegister collaborators id 0 principals) 0.

End Fake.


(** ** Further readings of a trace *)

(** The calls of [utils.ReadPath]. *)
Definition pathReadOf (en : Entry) : option (string * result bytes) :=
  let (e, x) := en in
  match e return Answer e -> option (string * result bytes) with
  | E_ReadPath path => fun x => Some (path, x)
  | _ => fun _ => None
  end x.

Definition pathReads := collect pathReadOf.

(** The client on which an entry calls a method other than [Close]. *)
Definition usedOn (en : Entry) : option Client :=
  match projT1 en with
  | E_GetLocalCA clt | E_RegisterUsingToken clt _ => Some clt
  | _ => None
  end.

(** Follow the open clients as [lifecycle] does and check, on top, that
    every method is called on a client that is open at that point. *)
Fixpoint wellUsed (t : list Entry) (open : list Client) : bool :=
  match t with
  | [] => true
  | en :: t' =>
      match opens en, closes en, usedOn en with
      | Some clt, _, _ => wellUsed t' (clt :: open)
      | None, Some clt, _ =>
          match removeFirst clt open with
          | Some open' => wellUsed t' open'
          | None => false
          end
      | None, None, Some clt => existsb (Nat.eqb clt) open && wellUsed t' open
      | None, None, None => wellUsed t' open
      end
  end.

(** Two checks on a table of encodings.  [prefixFree]: no encoding is the
    beginning of another one.  [headsApart]: no byte after the first byte of
    an encoding is the first byte of an encoding. *)
Definition prefixFree (runes : list (list N)) : bool :=
  forallb (fun p =>
    forallb (fun q =>
      negb (strings.isPrefix p q) ||
      (if list_eq_dec N.eq_dec p q then true else false)) runes) runes.

Definition headsApart (runes : list (list N)) : bool :=
  forallb (fun p =>
    forallb (fun c =>
      forallb (fun q => match q with
                        | h :: _ => negb (N.eqb c h)
                        | [] => true
                        end) runes) (tl p)) runes.

(** Further authorities for the test double: one with a token file padded
    with white space and a CA file that is empty, one that cannot be reached,
    and one that fails to hand out its CA. *)
Module Fixtures.

Definition padded : bytes :=
  bytes_of_string (String "009" (" s3cr3t " ++ String "013" (String "010" ""))).

Definition withFiles : Fake.Authority :=
  Fake.BuildAuthority
    (("/etc/padded", padded) :: ("/etc/empty.pem", []) :: Fake.files Fake.authority)
    (Fake.localCA Fake.authority) (Fake.issue Fake.authority)
    (Fake.generate Fake.authority) true.

Definition unreachable : Fake.Authority :=
  Fake.BuildAuthority (Fake.files Fake.authority) (Fake.localCA Fake.authority)
    (Fake.issue Fake.authority) (Fake.generate Fake.authority) false.

Definition withoutCA : Fake.Authority :=
  Fake.BuildAuthority (Fake.files Fake.authority) (Err (Failure "access denied"))
    (Fake.issue Fake.authority) (Fake.generate Fake.authority) true.

End Fixtures.

(** ** The helpers of lib/services/users_test.go *)

(** A Go slice, with the nil slice told apart from an empty one (a test of
    [DeepEquals] sees the difference). *)
Module slice.
Definition t (A : Type) : Type := option (list A).
(** The elements; a [range] over the nil slice visits nothing. *)
Definition elems {A : Type} (s : t A) : list A :=
  match s with
  | Some l => l
  | None => []
  end.
(** [append(s, xs...)]: nil stays nil when nothing is appended. *)
Definition append {A : Type} (s : t A) (xs : list A) : t A :=
  match s, xs with
  | None, [] => None
  | _, _ => Some (elems s ++ xs)
  end.
End slice.

(** The fields of [ClaimMapping] and [AttributeMapping] the helpers name. *)
Module ClaimMapping.
Record t : Type := Build { Claim : string; Value : string; Roles : slice.t string }.
End ClaimMapping.

Module AttributeMapping.
Record t : Type := Build { Name : string; Value : string; Roles : slice.t string }.
End AttributeMapping.

Definition claimMappingsToAttributeMappings (input : slice.t ClaimMapping.t)
  : slice.t AttributeMapping.t :=
  fold_left
    (fun out m =>
       slice.append out
         [AttributeMapping.Build (ClaimMapping.Claim m) (ClaimMapping.Value m)
            (slice.append (Some []) (slice.elems (ClaimMapping.Roles m)))])
    (slice.elems input) None.

(** What a value of [jose.Claims], of type [interface{}], can hold: a string,
    a slice of strings, or something else. *)
Inductive ClaimValue : Type :=
| VString (val : string)
| VStrings (val : slice.t string)
| VOther.

(** A Go map with string keys, as the pairs that a [range] over it visits,
    in the order of the visit; the keys of a map are distinct. *)
Definition gomap (V : Type) : Type := list (string * V).

Fixpoint mapGet {V : Type} (k : string) (m : gomap V) : option V :=
  match m with
  | [] => None
  | (k', v) :: m' => if k' =? k then Some v else mapGet k m'
  end.

(** [m[k] = v]. *)
Fixpoint mapSet {V : Type} (k : string) (v : V) (m : gomap V) : gomap V :=
  match m with
  | [] => [(k, v)]
  | (k', v') :: m' => if k' =? k then (k, v) :: m' else (k', v') :: mapSet k v m'
  end.

(** The fields of [types.AttributeValue], [types.Attribute] and
    [saml2.AssertionInfo] that [claimsToAttributes] sets. *)
Module AttributeValue.
Record t : Type := Build { Value : string }.
End AttributeValue.

Module Attribute.
Record t : Type := Build { Name : string; Values : slice.t AttributeValue.t }.
End Attribute.

Module AssertionInfo.
Record t : Type := Build { Values : gomap Attribute.t }.
End AssertionInfo.

(** The body of the loop of [claimsToAttributes] up to the assignment: the
    attribute for one claim, [None] where the source panics. *)
Definition attributeOf (claim : string) (values : ClaimValue) : option Attribute.t :=
  match values with
  | VString val =>
      Some (Attribute.Build claim (Some [AttributeValue.Build val]))
  | VStrings val =>
      Some (Attribute.Build claim
              (fold_left (fun vs v => slice.append vs [AttributeValue.Build v])
                 (slice.elems val) None))
  | VOther => None
  end.

(** [claimsToAttributes]; [None] is the panic on an unsupported type. *)
Definition claimsToAttributes (claims : gomap ClaimValue) : option AssertionInfo.t :=
  fold_left
    (fun acc cv =>
       match acc with
       | None => None
       | Some info =>
           match attributeOf (fst cv) (snd cv) with
           | Some attr =>
               Some (AssertionInfo.Build
                       (mapSet (fst cv) attr (AssertionInfo.Values info)))
           | None => None
           end
       end)
    claims (Some (AssertionInfo.Build [])).

(** Turn every string of the claims into the slice of that one string. *)
Definition asSlices (claims : gomap ClaimValue) : gomap ClaimValue :=
  map (fun cv => match snd cv with
                 | VString val => (fst cv, VStrings (Some [val]))
                 | _ => cv
                 end) claims.

(** ** General facts about computations *)

(** Running a computation against a world gives one of its traces: every
    computation returns, whatever the world. *)
Lemma run_traces {R W : Type} (h : World W) (p : Prog R) (w : W) :
  traces p (fst (run h p w)) (snd (run h p w)).
Proof.
  revert w. induction p as [r | e k IH]; intro w; simpl.
  - split; reflexivity.
  - destruct (h e w) as [x w'].
    specialize (IH x w').
    destruct (run h (k x) w') as [t r]. simpl in *.
    exists x, t. split; [reflexivity | exact IH].
Qed.

Lemma traces_bind {A B : Type} (p : Prog A) (f : A -> Prog B) (t : list Entry) (r : B) :
  traces (bind p f) t r <->
  exists (t1 : list Entry) (a : A) (t2 : list Entry),
    t = t1 ++ t2 /\ traces p t1 a /\ traces (f a) t2 r.
Proof.
  revert t. induction p as [a | e k IH]; intro t; simpl.
  - split.
    + intro H. exists [], a, t. auto.
    + intros (t1 & a' & t2 & -> & [-> ->] & H). exact H.
  - split.
    + intros (x & t' & -> & H).
      apply IH in H. destruct H as (t1 & a & t2 & -> & H1 & H2).
      exists (entry e x :: t1), a, t2. split; [reflexivity|].
      split; [|exact H2]. exists x, t1. auto.
    + intros (t1 & a & t2 & -> & (x & t' & -> & H1) & H2).
      exists x, (t' ++ t2). split; [reflexivity|].
      apply IH. exists t', a, t2. auto.
Qed.

Lemma collect_app {A : Type} (f : Entry -> option A) (t1 t2 : list Entry) :
  collect f (t1 ++ t2) = collect f t1 ++ collect f t2.
Proof.
  induction t1 as [| en t1 IH]; simpl; [reflexivity|].
  destruct (f en); simpl; rewrite IH; reflexivity.
Qed.

(** Symbolic execution of a computation in a hypothesis [H : traces p t r]:
    follow [p] call by call, splitting on every answer and every test. *)
Ltac exec H :=
  cbn [traces bind call defer trace.Wrap trace.WrapMsg] in H;
  lazymatch type of H with
  | ex _ =>
      let x := fresh "x" in
      let t := fresh "t" in
      destruct H as (x & t & -> & H); cbn [Answer] in x; exec H
  | _ /\ _ => destruct H as [-> ->]
  | traces ?p _ _ =>
      match p with
      | context [match ?s with _ => _ end] => destruct s eqn:?; exec H
      end
  end.

(** The converse: build a trace of the computation in the goal, taking the
    answers from the trace given and the tests from the hypotheses. *)
Ltac replay :=
  cbn [traces bind call defer trace.Wrap trace.WrapMsg];
  lazymatch goal with
  | |- ex _ => eexists; replay
  | |- _ /\ _ => split; [reflexivity | try replay]
  | |- traces ?p _ _ =>
      match goal with
      | E : ?s = _ |- context [match ?s with _ => _ end] => rewrite E; replay
      end
  | |- _ => try reflexivity
  end.

(** ** [strings.TrimSpace] trims *)

Lemma isPrefix_split (p s : list N) :
  strings.isPrefix p s = true -> s = p ++ skipn (length p) s.
Proof.
  revert s. induction p as [| a p IH]; intros s H; simpl in *; [reflexivity|].
  destruct s as [| b s]; [discriminate|].
  apply andb_true_iff in H. destruct H as [Hab Hps].
  apply N.eqb_eq in Hab. subst b. simpl. f_equal. apply IH, Hps.
Qed.

Lemma isPrefix_app (p s r : list N) :
  strings.isPrefix p s = true -> strings.isPrefix p (s ++ r) = true.
Proof.
  revert s. induction p as [| a p IH]; intros s H; simpl in *; [reflexivity|].
  destruct s as [| b s]; [discriminate|]. simpl.
  apply andb_true_iff in H. destruct H as [Hab Hps].
  rewrite Hab. simpl. apply IH, Hps.
Qed.

Lemma find_none_intro {A : Type} (f : A -> bool) (l : list A) :
  (forall x, In x l -> f x = false) -> find f l = None.
Proof.
  induction l as [| a l IH]; intro H; simpl; [reflexivity|].
  rewrite (H a (or_introl eq_refl)). apply IH.
  intros x Hx. apply H. right. exact Hx.
Qed.

(** With enough fuel, [dropSpaces] splits its input into a run of runes
    and a rest that starts with none of them. *)
Lemma dropSpaces_spec (runes : list (list N)) :
  Forall (fun p => p <> []) runes ->
  forall (fuel : nat) (s : list N),
    length s <= fuel ->
    strings.spaces runes
      (firstn (length s - length (strings.dropSpaces runes fuel s)) s) /\
    s = firstn (length s - length (strings.dropSpaces runes fuel s)) s
        ++ strings.dropSpaces runes fuel s /\
    strings.leadingSpace runes (strings.dropSpaces runes fuel s) = None.
Proof.
  intros Hne. rewrite Forall_forall in Hne.
  induction fuel as [| fuel IH]; intros s Hlen.
  - destruct s; [| simpl in Hlen; lia]. simpl.
    split; [exists []; split; [constructor | reflexivity] |].
    split; [reflexivity|].
    apply find_none_intro. intros p Hp.
    destruct p as [| a p]; [elim (Hne _ Hp); reflexivity | reflexivity].
  - simpl. destruct (strings.leadingSpace runes s) as [p |] eqn:E.
    + apply find_some in E. destruct E as (Hin & Hpre).
      pose proof (isPrefix_split _ _ Hpre) as Hs.
      assert (Hp : p <> []) by (apply Hne, Hin).
      set (s' := skipn (length p) s) in *.
      assert (Hl : length s = length p + length s').
      { rewrite <- length_app. exact (f_equal (@length N) Hs). }
      assert (Hp' : 0 < length p) by (destruct p; [congruence | simpl; lia]).
      destruct (IH s' ltac:(lia)) as ((ps & Hps & Hcat) & Hsplit & Hnone).
      set (d := strings.dropSpaces runes fuel s') in *.
      assert (Hd : length d <= length s').
      { pose proof (f_equal (@length N) Hsplit) as Hlen'.
        rewrite length_app in Hlen'. lia. }
      assert (Hfirst : firstn (length s - length d) s
                       = p ++ firstn (length s' - length d) s').
      { replace (length s - length d)
          with (length p + (length s' - length d)) by lia.
        etransitivity; [exact (f_equal (firstn _) Hs) | apply firstn_app_2]. }
      rewrite Hfirst. split; [| split; [| exact Hnone]].
      * exists (p :: ps). split; [constructor; assumption|].
        simpl. rewrite <- Hcat. reflexivity.
      * rewrite <- app_assoc, <- Hsplit. exact Hs.
    + rewrite Nat.sub_diag. simpl.
      split; [exists []; split; [constructor | reflexivity] |].
      split; [reflexivity | exact E].
Qed.

Lemma spaceRunes_nonempty : Forall (fun p : list N => p <> []) strings.spaceRunes.
Proof. repeat constructor; discriminate. Qed.

Lemma spaceRunes_rev_nonempty :
  Forall (fun p : list N => p <> []) (map (@rev N) strings.spaceRunes).
Proof. repeat constructor; discriminate. Qed.

Lemma codes_of_codes (l : list N) :
  Forall (fun n => (n < 256)%N) l -> strings.codes (strings.of_codes l) = l.
Proof.
  intro H. unfold strings.codes, strings.of_codes.
  rewrite list_ascii_of_string_of_list_ascii, map_map.
  induction H as [| n l Hn _ IH]; simpl; [reflexivity|].
  rewrite N_ascii_embedding by exact Hn. f_equal. exact IH.
Qed.

Lemma codes_bounded (s : string) : Forall (fun n => (n < 256)%N) (strings.codes s).
Proof.
  unfold strings.codes. apply Forall_forall. intros n Hn.
  apply in_map_iff in Hn. destruct Hn as (a & <- & _). apply N_ascii_bounded.
Qed.

(** What [strings.TrimSpace] returns is its argument trimmed. *)
Lemma TrimSpace_Trimmed (s : string) : strings.Trimmed s (strings.TrimSpace s).
Proof.
  unfold strings.Trimmed, strings.TrimSpace, strings.trimRight, strings.trimLeft.
  set (c := strings.codes s).
  destruct (dropSpaces_spec _ spaceRunes_nonempty (length c) c (le_n _))
    as (Hl & Hsplit & Hnone).
  set (m := strings.dropSpaces strings.spaceRunes (length c) c) in *.
  set (l := firstn (length c - length m) c) in *.
  destruct (dropSpaces_spec _ spaceRunes_rev_nonempty (length m) (rev m)
              ltac:(rewrite length_rev; apply le_n))
    as (Hr & Hsplit' & Hnone').
  set (d := strings.dropSpaces (map (@rev N) strings.spaceRunes) (length m) (rev m)) in *.
  set (r' := firstn (length (rev m) - length d) (rev m)) in *.
  assert (Hm : m = rev d ++ rev r').
  { rewrite <- rev_app_distr, <- Hsplit'. symmetry. apply rev_involutive. }
  assert (Hb : Forall (fun n => (n < 256)%N) (rev d)).
  { pose proof (codes_bounded s) as Hc. fold c in Hc.
    rewrite Hsplit, Hm in Hc.
    apply Forall_app in Hc. destruct Hc as (_ & Hc).
    apply Forall_app in Hc. exact (proj1 Hc). }
  rewrite (codes_of_codes _ Hb).
  exists l, (rev r'). split; [| split; [exact Hl | split; [| split]]].
  - rewrite <- Hm. exact Hsplit.
  - rewrite rev_involutive. exact Hr.
  - apply find_none_intro. intros p Hp.
    destruct (strings.isPrefix p (rev d)) eqn:E; [| reflexivity].
    apply (isPrefix_app _ _ (rev r')) in E. rewrite <- Hm in E.
    unfold strings.leadingSpace in Hnone.
    rewrite (find_none _ _ Hnone p Hp) in E. discriminate.
  - rewrite rev_involutive. exact Hnone'.
Qed.

Section Properties.

Context {collaborators : Collaborators}.

Lemma readToken_cases (token : string) (t : list Entry) (r : result string) :
  traces (readToken token) t r ->
  (strings.HasPrefix token "/" = false /\ t = [] /\ r = Ok token) \/
  (strings.HasPrefix token "/" = true /\
   exists x : result bytes,
     t = [entry (E_ReadFile token) x] /\
     r = match x with
         | Ok out => Ok (strings.TrimSpace (string_of_bytes out))
         | Err _ => Ok ""
         end).
Proof.
  unfold readToken. intro H.
  destruct (strings.HasPrefix token "/"); cbn [negb] in H; exec H.
  - right. split; [reflexivity|]. eexists. split; reflexivity.
  - right. split; [reflexivity|]. eexists. split; reflexivity.
  - left. auto.
Qed.

(** [Register] is [readToken], which never fails, followed by the rest. *)
Lemma Register_cases (params : RegisterParams.t) (t : list Entry) (r : result Identity) :
  traces (Register params) t r ->
  exists (tTok : list Entry) (tok : string) (tRest : list Entry),
    t = tTok ++ tRest /\
    traces (readToken (RegisterParams.Token params)) tTok (Ok tok) /\
    traces (registerFrom params tok) tRest r.
Proof.
  unfold Register. intro H.
  apply traces_bind in H. destruct H as (tTok & a & tRest & -> & Htok & Hrest).
  destruct (readToken_cases _ _ _ Htok) as [(_ & _ & ->) | (_ & x & _ & ->)].
  - exists tTok, (RegisterParams.Token params), tRest. auto.
  - destruct x as [out | e].
    + exists tTok, (strings.TrimSpace (string_of_bytes out)), tRest. auto.
    + exists tTok, "", tRest. auto.
Qed.

(** The token step makes no call to a client. *)
Lemma readToken_quiet (token : string) (t : list Entry) (r : result string) :
  traces (readToken token) t r ->
  dials t = [] /\ fetches t = [] /\ issuances t = [] /\ networkCalls t = [] /\
  collect opens t = [] /\ collect closes t = [].
Proof.
  intro H.
  destruct (readToken_cases _ _ _ H) as [(_ & -> & _) | (_ & x & -> & _)];
    repeat split; reflexivity.
Qed.

(** C1. With the pin strategy, when the CA certificate fetched over the first,
    insecure connection fails the pin check, [RegisterUsingToken] is never
    called: the first client is closed and [Register] returns the error of
    the check, and no Identity. *)
Theorem pin_mismatch_never_issues
    (params : RegisterParams.t) (t : list Entry) (r : result Identity)
    (clt : Client) (ca : LocalCAResponse.t) (cert : Certificate.t) (err : error) :
  RegisterParams.InsecureSkipCAVerification params = false ->
  RegisterParams.CAPin params <> "" ->
  traces (Register params) t r ->
  In (clt, Ok ca) (fetches t) ->
  ParseCertificatePEM (LocalCAResponse.TLSCA ca) = Ok cert ->
  CheckSKPI (RegisterParams.CAPin params) cert = Some err ->
  issuances t = [] /\
  r = Err err /\
  exists (tTok : list Entry) (closeErr : option error),
    t = tTok ++
        [ entry (E_NewTLSClient (RegisterParams.Servers params)
                   (tls.setInsecureSkipVerify true
                      (TLSConfig (RegisterParams.CipherSuites params))))
                (Ok clt);
          entry (E_GetLocalCA clt) (Ok ca);
          entry (E_Close clt) closeErr ] /\
    networkCalls tTok = [].
Proof.
  intros Hins Hpin H Hin Hparse Hcheck.
  apply String.eqb_neq in Hpin.
  apply Register_cases in H. destruct H as (tTok & tok & tRest & -> & Htok & H).
  apply readToken_quiet in Htok.
  destruct Htok as (_ & Hf & Hi & Hn & _).
  unfold issuances, fetches in *.
  rewrite collect_app in Hin. rewrite collect_app. rewrite Hf in Hin. rewrite Hi.
  unfold registerFrom in H. rewrite Hins, Hpin in H. cbn [negb] in H.
  unfold pinRegisterClient, registerWith in H.
  exec H; cbn in Hin |- *.
  all: try contradiction.
  all: destruct Hin as [Hin | []]; inversion Hin; subst; try congruence.
  assert (err = e) by congruence. subst e.
  split; [reflexivity|]. split; [reflexivity|].
  eexists _, _. split; [reflexivity | exact Hn].
Qed.

(** C2. [Register] picks its trust strategy by precedence: the insecure flag
    first, else a non-empty CA pin, else a non-empty CA path; this is the
    selection of the design ([selectStrategy]).  The runs of [Register] are
    exactly the runs of [readToken] followed by a run of the one strategy
    selected and of the issuance on its client; the first call after the
    token step is the first call of that strategy (the warning for insecure,
    the insecure connection for pin, the read of the CA file for path).  When
    none of the three is set it returns the configuration error, builds no
    client and makes no call over the network. *)
Theorem strategy_precedence (params : RegisterParams.t) :
  (forall tok : string,
     registerFrom params tok =
     match selectStrategy params with
     | Some s => built <- strategyClient s params ;; registerWith params tok built
     | None => Ret (Err noStrategy)
     end) /\
  (RegisterParams.InsecureSkipCAVerification params = true ->
   selectStrategy params = Some Insecure) /\
  (RegisterParams.InsecureSkipCAVerification params = false ->
   RegisterParams.CAPin params <> "" ->
   selectStrategy params = Some Pin) /\
  (RegisterParams.InsecureSkipCAVerification params = false ->
   RegisterParams.CAPin params = "" ->
   RegisterParams.CAPath params <> "" ->
   selectStrategy params = Some Path) /\
  (RegisterParams.InsecureSkipCAVerification params = false ->
   RegisterParams.CAPin params = "" ->
   RegisterParams.CAPath params = "" ->
   selectStrategy params = None /\
   forall (t : list Entry) (r : result Identity),
     traces (Register params) t r ->
     r = Err noStrategy /\ dials t = [] /\ networkCalls t = []) /\
  (forall (t : list Entry) (r : result Identity),
     traces (Register params) t r <->
     exists (tTok : list Entry) (tok : string) (tRest : list Entry),
       t = tTok ++ tRest /\
       traces (readToken (RegisterParams.Token params)) tTok (Ok tok) /\
       match selectStrategy params with
       | Some s =>
           traces (built <- strategyClient s params ;; registerWith params tok built)
                  tRest r
       | None => tRest = [] /\ r = Err noStrategy
       end) /\
  (forall (t : list Entry) (r : result Identity) (s : Strategy),
     traces (Register params) t r ->
     selectStrategy params = Some s ->
     exists (tTok : list Entry) (first : Entry) (rest : list Entry),
       t = tTok ++ first :: rest /\
       networkCalls tTok = [] /\ pathReads tTok = [] /\
       match s with
       | Insecure => exists msg : string, projT1 first = E_Warnf msg
       | Pin =>
           projT1 first
           = E_NewTLSClient (RegisterParams.Servers params)
               (tls.setInsecureSkipVerify true
                  (TLSConfig (RegisterParams.CipherSuites params)))
       | Path => projT1 first = E_ReadPath (RegisterParams.CAPath params)
       end).
Proof.
  assert (Hdispatch : forall tok : string,
            registerFrom params tok =
            match selectStrategy params with
            | Some s => built <- strategyClient s params ;; registerWith params tok built
            | None => Ret (Err noStrategy)
            end).
  { intro tok. unfold registerFrom, selectStrategy.
    destruct (RegisterParams.InsecureSkipCAVerification params); [reflexivity|].
    destruct (negb (RegisterParams.CAPin params =? "")); [reflexivity|].
    destruct (negb (RegisterParams.CAPath params =? "")); reflexivity. }
  split; [exact Hdispatch|].
  split; [| split; [| split; [| split; [| split]]]].
  - intro Hins. unfold selectStrategy. rewrite Hins. reflexivity.
  - intros Hins Hpin. apply String.eqb_neq in Hpin.
    unfold selectStrategy. rewrite Hins, Hpin. reflexivity.
  - intros Hins Hpin Hpath. apply String.eqb_neq in Hpath.
    unfold selectStrategy. rewrite Hins, Hpin, Hpath. reflexivity.
  - intros Hins Hpin Hpath.
    assert (Hnone : selectStrategy params = None).
    { unfold selectStrategy. rewrite Hins, Hpin, Hpath. reflexivity. }
    split; [exact Hnone|].
    intros t r H.
    apply Register_cases in H. destruct H as (tTok & tok & tRest & -> & Htok & H).
    apply readToken_quiet in Htok. destruct Htok as (Hd & _ & _ & Hn & _).
    unfold registerFrom in H. rewrite Hins, Hpin, Hpath in H.
    cbn in H. destruct H as [-> ->].
    rewrite app_nil_r. auto.
  - intros t r. split.
    + intro H.
      apply Register_cases in H. destruct H as (tTok & tok & tRest & -> & Htok & H).
      exists tTok, tok, tRest. split; [reflexivity|]. split; [exact Htok|].
      rewrite Hdispatch in H.
      destruct (selectStrategy params) as [s |]; [exact H|].
      cbn in H. exact H.
    + intros (tTok & tok & tRest & -> & Htok & H).
      unfold Register. apply traces_bind.
      exists tTok, (Ok tok), tRest. split; [reflexivity|]. split; [exact Htok|].
      rewrite Hdispatch.
      destruct (selectStrategy params) as [s |]; [exact H|].
      cbn. exact H.
  - intros t r s H Hs.
    apply Register_cases in H. destruct H as (tTok & tok & tRest & -> & Htok & H).
    pose proof (readToken_quiet _ _ _ Htok) as (_ & _ & _ & Hn & _).
    assert (Hp : pathReads tTok = []).
    { destruct (readToken_cases _ _ _ Htok) as [(_ & -> & _) | (_ & x & -> & _)];
        reflexivity. }
    rewrite Hdispatch, Hs in H.
    destruct s; cbn [strategyClient] in H;
      unfold insecureRegisterClient, pinRegisterClient, pathRegisterClient in H;
      cbn [traces bind call] in H;
      destruct H as (x & t' & -> & _);
      exists tTok; eexists; exists t';
      (split; [reflexivity|]); (split; [exact Hn|]); (split; [exact Hp|]).
    + eexists. reflexivity.
    + reflexivity.
    + reflexivity.
Qed.

(** C3. With the pin strategy, when the fetched CA certificate passes the pin
    check, the second client is built with a configuration whose [RootCAs]
    pool holds that certificate and nothing else, the first client is closed,
    and the issuance call goes to the second client. *)
Theorem pin_match_exclusive_trust
    (params : RegisterParams.t) (t : list Entry) (r : result Identity)
    (clt : Client) (ca : LocalCAResponse.t) (cert : Certificate.t) :
  RegisterParams.InsecureSkipCAVerification params = false ->
  RegisterParams.CAPin params <> "" ->
  traces (Register params) t r ->
  In (clt, Ok ca) (fetches t) ->
  ParseCertificatePEM (LocalCAResponse.TLSCA ca) = Ok cert ->
  CheckSKPI (RegisterParams.CAPin params) cert = None ->
  let cfg1 := tls.setInsecureSkipVerify true
                (TLSConfig (RegisterParams.CipherSuites params)) in
  let cfg2 := tls.setRootCAs [cert]
                (TLSConfig (RegisterParams.CipherSuites params)) in
  tls.RootCAs cfg2 = Some [cert] /\
  exists (tTok : list Entry) (tok : string) (second : result Client)
         (closeErr : option error) (issuance : list Entry),
    traces (readToken (RegisterParams.Token params)) tTok (Ok tok) /\
    t = tTok ++
        [ entry (E_NewTLSClient (RegisterParams.Servers params) cfg1) (Ok clt);
          entry (E_GetLocalCA clt) (Ok ca);
          entry (E_Infof "Joining remote cluster %v with CA pin."
                         (Certificate.SubjectCommonName cert)) tt;
          entry (E_NewTLSClient (RegisterParams.Servers params) cfg2) second;
          entry (E_Close clt) closeErr ] ++ issuance /\
    match second with
    | Err e => issuance = [] /\ r = Err e
    | Ok clt2 =>
        exists (ans : result PackedKeys.t) (closeErr2 : option error),
          issuance =
            [ entry (E_RegisterUsingToken clt2 (registerRequest params tok)) ans;
              entry (E_Close clt2) closeErr2 ] /\
          issuances t = [(clt2, registerRequest params tok, ans)]
    end.
Proof.
  intros Hins Hpin H Hin Hparse Hcheck cfg1 cfg2.
  split; [reflexivity|].
  apply String.eqb_neq in Hpin.
  apply Register_cases in H. destruct H as (tTok & tok & tRest & -> & Htok & H).
  exists tTok, tok.
  destruct (readToken_quiet _ _ _ Htok) as (_ & Hf & Hi & _).
  unfold issuances, fetches in *.
  rewrite collect_app in Hin. rewrite Hf in Hin.
  unfold registerFrom in H. rewrite Hins, Hpin in H. cbn [negb] in H.
  unfold pinRegisterClient, registerWith in H.
  exec H; cbn in Hin.
  all: try contradiction.
  all: destruct Hin as [Hin | []]; inversion Hin; subst; try congruence.
  all: match goal with E1 : ParseCertificatePEM _ = Ok ?c |- _ =>
         is_var c; assert (cert = c) by congruence; subst c end.
  all: match goal with x : unit |- _ => destruct x end.
  - do 3 eexists. split; [exact Htok|]. split; [reflexivity|].
    do 2 eexists. split; [reflexivity|].
    rewrite collect_app, Hi. reflexivity.
  - do 3 eexists. split; [exact Htok|]. split; [reflexivity|].
    do 2 eexists. split; [reflexivity|].
    rewrite collect_app, Hi. reflexivity.
  - do 3 eexists. split; [exact Htok|]. split; [reflexivity|].
    cbn. auto.
Qed.

(** C4. When the authority answers the issuance call of [Register] with the
    bundle [B], what [Register] returns is what [ReadIdentityFromKeyPair]
    gives for the private key of the parameters and the SSH certificate, the
    TLS certificate and the CA chain of [B]; with the pin strategy the trace
    then holds exactly one [GetLocalCA] and exactly one [RegisterUsingToken]. *)
Theorem register_round_trip
    (params : RegisterParams.t) (t : list Entry) (r : result Identity)
    (clt : Client) (req : RegisterUsingTokenRequest.t) (B : PackedKeys.t) :
  traces (Register params) t r ->
  In (clt, req, Ok B) (issuances t) ->
  r = ReadIdentityFromKeyPair (RegisterParams.PrivateKey params)
        (PackedKeys.Cert B) (PackedKeys.TLSCert B) (PackedKeys.TLSCACerts B) /\
  (RegisterParams.InsecureSkipCAVerification params = false ->
   RegisterParams.CAPin params <> "" ->
   length (fetches t) = 1 /\ length (issuances t) = 1).
Proof.
  intros H Hin.
  apply Register_cases in H. destruct H as (tTok & tok & tRest & -> & Htok & H).
  destruct (readToken_quiet _ _ _ Htok) as (_ & Hf & Hi & _).
  unfold issuances, fetches in *.
  rewrite collect_app in Hin. rewrite Hi in Hin.
  rewrite !collect_app, Hf, Hi.
  unfold registerFrom in H.
  destruct (RegisterParams.InsecureSkipCAVerification params) eqn:Hins;
    [| destruct (RegisterParams.CAPin params =? "") eqn:Hpin;
       [| clear Hpin];
       cbn [negb] in H;
       [ destruct (RegisterParams.CAPath params =? "") eqn:Hpath; cbn [negb] in H |] ].
  all: unfold insecureRegisterClient, pinRegisterClient, pathRegisterClient,
         registerWith in H.
  all: exec H; cbn in Hin |- *.
  all: try contradiction.
  all: destruct Hin as [Hin | []]; inversion Hin; subst.
  all: split; [reflexivity|].
  all: intros Hi' Hp'; try discriminate; try (apply String.eqb_neq in Hp'; congruence).
  all: split; reflexivity.
Qed.

Lemma registerFrom_key_blind
    (params : RegisterParams.t) (key : bytes) (tok : string)
    (t : list Entry) (r : result Identity) :
  traces (registerFrom params tok) t r ->
  exists r' : result Identity,
    traces (registerFrom (withPrivateKey key params) tok) t r'.
Proof.
  destruct params as [dir token id servers principals priv pubTLS pubSSH
                        suites caPath caPin insecure].
  unfold registerFrom, insecureRegisterClient, pinRegisterClient,
    pathRegisterClient, registerWith, registerRequest, withPrivateKey.
  cbn [RegisterParams.InsecureSkipCAVerification RegisterParams.CAPin
       RegisterParams.CAPath RegisterParams.CipherSuites RegisterParams.Servers
       RegisterParams.ID RegisterParams.AdditionalPrincipals
       RegisterParams.PublicTLSKey RegisterParams.PublicSSHKey
       RegisterParams.PrivateKey].
  intro H.
  exec H; eexists; replay.
Qed.

(** The requests [Register] and [ReRegister] send are built from the public
    keys and never from the private key. *)
Lemma registerRequest_key_blind (params : RegisterParams.t) (key : bytes) (tok : string) :
  registerRequest (withPrivateKey key params) tok = registerRequest params tok.
Proof. reflexivity. Qed.

Lemma reRegisterRequest_key_blind (params : ReRegisterParams.t) (key : bytes) (h : string) :
  reRegisterRequest (withReRegisterPrivateKey key params) h = reRegisterRequest params h.
Proof. reflexivity. Qed.

(** C5. The private key of the caller is not transmitted.  Every request
    handed to [RegisterUsingToken] or [GenerateServerKeys] is the request
    built from the other fields of the parameters, with the public TLS and
    SSH keys in its key fields; and a run of [Register] or [ReRegister] with
    another private key, all else equal, makes the same calls with the same
    arguments as long as it gets the same answers. *)
Theorem private_key_not_transmitted :
  (forall (params : RegisterParams.t) (key : bytes)
          (t : list Entry) (r : result Identity),
     traces (Register params) t r ->
     exists r' : result Identity, traces (Register (withPrivateKey key params)) t r') /\
  (forall (params : ReRegisterParams.t) (key : bytes)
          (t : list Entry) (r : result Identity),
     traces (ReRegister params) t r ->
     exists r' : result Identity,
       traces (ReRegister (withReRegisterPrivateKey key params)) t r') /\
  (forall (params : RegisterParams.t) (t : list Entry) (r : result Identity)
          (clt : Client) (req : RegisterUsingTokenRequest.t)
          (ans : result PackedKeys.t),
     traces (Register params) t r ->
     In (clt, req, ans) (issuances t) ->
     (exists tok : string,
        req = registerRequest (withPrivateKey [] params) tok) /\
     RegisterUsingTokenRequest.PublicTLSKey req = RegisterParams.PublicTLSKey params /\
     RegisterUsingTokenRequest.PublicSSHKey req = RegisterParams.PublicSSHKey params) /\
  (forall (params : ReRegisterParams.t) (t : list Entry) (r : result Identity)
          (clt : ClientI) (req : GenerateServerKeysRequest.t)
          (ans : result PackedKeys.t),
     traces (ReRegister params) t r ->
     In (clt, req, ans) (generations t) ->
     (exists h : string,
        req = reRegisterRequest (withReRegisterPrivateKey [] params) h) /\
     GenerateServerKeysRequest.PublicTLSKey req = ReRegisterParams.PublicTLSKey params /\
     GenerateServerKeysRequest.PublicSSHKey req = ReRegisterParams.PublicSSHKey params).
Proof.
  split; [| split; [| split]].
  - intros params key t r H.
    apply Register_cases in H. destruct H as (tTok & tok & tRest & -> & Htok & H).
    destruct (registerFrom_key_blind _ key _ _ _ H) as (r' & H').
    exists r'. unfold Register. apply traces_bind.
    exists tTok, (Ok tok), tRest. split; [reflexivity|]. split; [exact Htok | exact H'].
  - intros params key t r H.
    destruct params as [clt id principals priv pubTLS pubSSH].
    unfold ReRegister, reRegisterRequest, withReRegisterPrivateKey in *.
    cbn [ReRegisterParams.Client ReRegisterParams.ID
         ReRegisterParams.AdditionalPrincipals ReRegisterParams.PublicTLSKey
         ReRegisterParams.PublicSSHKey ReRegisterParams.PrivateKey] in *.
    exec H; eexists; replay.
  - intros params t r clt req ans H Hin.
    apply Register_cases in H. destruct H as (tTok & tok & tRest & -> & Htok & H).
    destruct (readToken_quiet _ _ _ Htok) as (_ & _ & Hi & _).
    unfold issuances in *. rewrite collect_app, Hi in Hin.
    unfold registerFrom, insecureRegisterClient, pinRegisterClient,
      pathRegisterClient, registerWith in H.
    exec H; cbn in Hin; try contradiction.
    all: destruct Hin as [Hin | []]; inversion Hin; subst.
    all: split; [exists tok; reflexivity | split; reflexivity].
  - intros params t r clt req ans H Hin.
    unfold ReRegister in H.
    exec H; cbn in Hin; try contradiction.
    all: destruct Hin as [Hin | []]; inversion Hin; subst.
    all: split; [eexists; reflexivity | split; reflexivity].
Qed.

Lemma lifecycle_app (t1 t2 : list Entry) (open : list Client) :
  lifecycle (t1 ++ t2) open =
  match lifecycle t1 open with
  | Some open' => lifecycle t2 open'
  | None => None
  end.
Proof.
  revert open. induction t1 as [| en t1 IH]; intro open; simpl; [reflexivity|].
  destruct (opens en); [apply IH|].
  destruct (closes en); [| apply IH].
  destruct (removeFirst c open); [apply IH | reflexivity].
Qed.

Lemma readToken_lifecycle (token : string) (t : list Entry) (r : result string)
    (open : list Client) :
  traces (readToken token) t r -> lifecycle t open = Some open.
Proof.
  intro H.
  destruct (readToken_cases _ _ _ H) as [(_ & -> & _) | (_ & x & -> & _)];
    reflexivity.
Qed.

(** Decide the comparisons of client handles that show up when a trace is
    followed. *)
Ltac handles :=
  repeat (progress cbn || rewrite Nat.eqb_refl ||
          match goal with
          | |- context [Nat.eqb ?a ?b] =>
              let E := fresh "E" in
              destruct (Nat.eqb a b) eqn:E;
              [apply Nat.eqb_eq in E; subst | ]
          | |- context [Nat.eq_dec ?a ?b] =>
              destruct (Nat.eq_dec a b); [subst |]
          end); try reflexivity; try congruence.

(** C6. In every run of [Register], successful or not, with any strategy,
    each client that [NewTLSClient] built is closed exactly once: no [Close]
    hits a client that is not open, no client is open at the end, and every
    handle is closed as many times as it was built. *)
Theorem clients_closed_exactly_once
    (params : RegisterParams.t) (t : list Entry) (r : result Identity) :
  traces (Register params) t r ->
  lifecycle t [] = Some [] /\
  forall clt : Client, closed clt t = built clt t.
Proof.
  intro H.
  apply Register_cases in H. destruct H as (tTok & tok & tRest & -> & Htok & H).
  rewrite lifecycle_app, (readToken_lifecycle _ _ _ [] Htok).
  destruct (readToken_quiet _ _ _ Htok) as (_ & _ & _ & _ & Ho & Hc).
  unfold closed, built. rewrite !collect_app, Ho, Hc. cbn [app].
  unfold registerFrom, insecureRegisterClient, pinRegisterClient,
    pathRegisterClient, registerWith in H.
  exec H; (split; [| intro clt]); cbn; handles.
Qed.

(** C7, as the code has it.  [LocalRegister] reads no token, builds no client
    and makes no call over the network: its one call is [GenerateServerKeys]
    on the auth server of the process, with the host UUID, the node name and
    the role of the [IdentityID], the additional principals and no public
    key.  It then assembles the Identity with [ReadIdentityFromKeyPair], as
    [Register] does, from the certificates of the bundle returned and from
    the private key that this bundle holds ([keys.Key]); it takes no private
    key from its caller.  The result is the one of the network path for the
    same bundle when the private key of the joining node is that key. *)
Theorem LocalRegister_assembles_returned_key
    (id : IdentityID.t) (authServer : AuthServer) (additionalPrincipals : list string)
    (t : list Entry) (r : result Identity) :
  traces (LocalRegister id authServer additionalPrincipals) t r ->
  networkCalls t = [] /\ fileReads t = [] /\
  exists ans : result PackedKeys.t,
    t = [ entry (E_AuthServerGenerateServerKeys authServer
                   (GenerateServerKeysRequest.Build
                      (IdentityID.HostUUID id) (IdentityID.NodeName id)
                      [IdentityID.Role id] additionalPrincipals [] []))
                ans ] /\
    r = match ans with
        | Ok keys =>
            ReadIdentityFromKeyPair (PackedKeys.Key keys) (PackedKeys.Cert keys)
              (PackedKeys.TLSCert keys) (PackedKeys.TLSCACerts keys)
        | Err err => Err err
        end /\
    forall (keys : PackedKeys.t) (params : RegisterParams.t) (tok : string)
           (clt : Client) (closeErr : option error),
      ans = Ok keys ->
      RegisterParams.PrivateKey params = PackedKeys.Key keys ->
      traces (registerWith params tok (Ok clt))
        [ entry (E_RegisterUsingToken clt (registerRequest params tok)) (Ok keys);
          entry (E_Close clt) closeErr ]
        r.
Proof.
  unfold LocalRegister. intro H.
  exec H; (split; [reflexivity|]); (split; [reflexivity|]);
    eexists; (split; [reflexivity|]); (split; [reflexivity|]);
    intros keys params tok clt closeErr Hans Hkey; inversion Hans; subst.
  unfold registerWith. rewrite Hkey. replay.
Qed.

(** C8. A token that does not begin with [/] comes back unchanged, with no
    call made; for a token that begins with [/], [readToken] reads the file
    of that name and, when the file can be read, returns its content with the
    white space around it trimmed ([strings.TrimSpace], whose result is
    [strings.Trimmed]).  A content of [mytoken] followed by a line feed gives
    [mytoken]. *)
Theorem readToken_resolves (token : string) (t : list Entry) (r : result string) :
  traces (readToken token) t r ->
  (strings.HasPrefix token "/" = false -> t = [] /\ r = Ok token) /\
  (strings.HasPrefix token "/" = true ->
   exists x : result bytes,
     t = [entry (E_ReadFile token) x] /\
     forall out : bytes,
       x = Ok out ->
       r = Ok (strings.TrimSpace (string_of_bytes out)) /\
       strings.Trimmed (string_of_bytes out)
         (strings.TrimSpace (string_of_bytes out))) /\
  strings.TrimSpace (string_of_bytes (bytes_of_string ("mytoken" ++ String "010" "")))
  = "mytoken".
Proof.
  intro H.
  destruct (readToken_cases _ _ _ H) as [(Hp & -> & ->) | (Hp & x & -> & ->)].
  - split; [auto|]. split; [congruence | reflexivity].
  - split; [congruence|]. split; [| reflexivity].
    intros _. exists x. split; [reflexivity|].
    intros out ->. split; [reflexivity | apply TrimSpace_Trimmed].
Qed.

(** The calls after the token step read no file with [ioutil.ReadFile] and
    send the request built from the parameters and the token. *)
Lemma registerFrom_requests
    (params : RegisterParams.t) (tok : string) (t : list Entry) (r : result Identity) :
  traces (registerFrom params tok) t r ->
  fileReads t = [] /\
  forall (clt : Client) (req : RegisterUsingTokenRequest.t) (ans : result PackedKeys.t),
    In (clt, req, ans) (issuances t) -> req = registerRequest params tok.
Proof.
  unfold registerFrom, insecureRegisterClient, pinRegisterClient,
    pathRegisterClient, registerWith.
  intro H.
  exec H; (split; [reflexivity|]); intros clt req ans Hin; cbn in Hin;
    try contradiction.
  all: destruct Hin as [Hin | []]; inversion Hin; reflexivity.
Qed.

(** C9. When the file of a token that begins with [/] cannot be read,
    [readToken] returns the empty token and no error, and [Register] goes on
    from there as it would with the token [""]: every request it sends
    carries the empty token. *)
Theorem unreadable_token_file_gives_empty_token :
  (forall (token : string) (t : list Entry) (r : result string) (e : error),
     traces (readToken token) t r ->
     In (token, Err e) (fileReads t) ->
     strings.HasPrefix token "/" = true /\ r = Ok "") /\
  (forall (params : RegisterParams.t) (t : list Entry) (r : result Identity)
          (e : error),
     traces (Register params) t r ->
     In (RegisterParams.Token params, Err e) (fileReads t) ->
     exists tRest : list Entry,
       t = entry (E_ReadFile (RegisterParams.Token params)) (Err e) :: tRest /\
       traces (registerFrom params "") tRest r /\
       forall (clt : Client) (req : RegisterUsingTokenRequest.t)
              (ans : result PackedKeys.t),
         In (clt, req, ans) (issuances t) ->
         RegisterUsingTokenRequest.Token req = "").
Proof.
  split.
  - intros token t r e H Hin.
    destruct (readToken_cases _ _ _ H) as [(Hp & -> & ->) | (Hp & x & -> & ->)].
    + contradiction.
    + cbn in Hin. destruct Hin as [Hin | []]. inversion Hin; subst. auto.
  - intros params t r e H Hin.
    apply Register_cases in H. destruct H as (tTok & tok & tRest & -> & Htok & H).
    destruct (registerFrom_requests _ _ _ _ H) as (Hfr & Hreq).
    unfold fileReads, issuances in *. rewrite collect_app, Hfr, app_nil_r in Hin.
    destruct (readToken_cases _ _ _ Htok) as [(Hp & -> & Hr) | (Hp & x & -> & Hr)].
    + contradiction.
    + cbn in Hin. destruct Hin as [Hin | []]. inversion Hin; subst x.
      inversion Hr; subst tok.
      exists tRest. split; [reflexivity|]. split; [exact H|].
      intros clt req ans Hi. cbn in Hi.
      rewrite (Hreq _ _ _ Hi). reflexivity.
Qed.

(** C10, as the code has it.  [ReRegister] has no token among its parameters,
    reads no file and builds no client.  When [HostID()] of the [IdentityID]
    fails it returns that error and calls nothing.  When it gives [h], there
    is exactly one call, [GenerateServerKeys] on the client of the
    parameters, with [h], the node name, the role, the additional principals
    and the public keys; if the client answers with a bundle, [ReRegister]
    returns what [ReadIdentityFromKeyPair] gives for the private key of the
    caller and the certificates of that bundle, and so an Identity that
    depends on the input only through the private key. *)
Theorem ReRegister_issues_one_call
    (params : ReRegisterParams.t) (t : list Entry) (r : result Identity) :
  traces (ReRegister params) t r ->
  dials t = [] /\ fetches t = [] /\ fileReads t = [] /\ issuances t = [] /\
  match HostID (ReRegisterParams.ID params) with
  | Err err => t = [] /\ r = Err err
  | Ok h =>
      exists ans : result PackedKeys.t,
        t = [ entry (E_GenerateServerKeys (ReRegisterParams.Client params)
                       (GenerateServerKeysRequest.Build
                          h
                          (IdentityID.NodeName (ReRegisterParams.ID params))
                          [IdentityID.Role (ReRegisterParams.ID params)]
                          (ReRegisterParams.AdditionalPrincipals params)
                          (ReRegisterParams.PublicTLSKey params)
                          (ReRegisterParams.PublicSSHKey params)))
                    ans ] /\
        r = match ans with
            | Ok keys =>
                ReadIdentityFromKeyPair (ReRegisterParams.PrivateKey params)
                  (PackedKeys.Cert keys) (PackedKeys.TLSCert keys)
                  (PackedKeys.TLSCACerts keys)
            | Err err => Err err
            end
  end.
Proof.
  unfold ReRegister, reRegisterRequest. intro H.
  destruct (HostID (ReRegisterParams.ID params)) as [h | err].
  - exec H; repeat (split; [reflexivity|]); eexists; split; reflexivity.
  - exec H. repeat (split; [reflexivity|]). split; reflexivity.
Qed.

End Properties.


(** ** The theorems on the test double *)

(** A join with a pin that the CA of the authority does not match. *)
Lemma pin_mismatch_never_issues_witness :
  let params := Fake.params "t1" "" "sha256:CA-BBB" false in
  let out := Fake.join Fake.authority params in
  traces (@Register Fake.collaborators params) (fst out) (snd out) /\
  In (0, Ok (LocalCAResponse.Build (bytes_of_string "CA-AAA"))) (fetches (fst out)) /\
  issuances (fst out) = [] /\
  snd out = Err (BadParameter "pin does not match").
Proof.
  intros params out.
  assert (Ht : traces (@Register Fake.collaborators params) (fst out) (snd out))
    by apply run_traces.
  assert (Hin : In (0, Ok (LocalCAResponse.Build (bytes_of_string "CA-AAA")))
                   (fetches (fst out)))
    by (vm_compute; left; reflexivity).
  pose proof (@pin_mismatch_never_issues Fake.collaborators params (fst out) (snd out)
                0 (LocalCAResponse.Build (bytes_of_string "CA-AAA"))
                (Certificate.Build (bytes_of_string "CA-AAA") "CA-AAA"
                   (bytes_of_string "CA-AAA"))
                (BadParameter "pin does not match")
                eq_refl ltac:(discriminate) Ht Hin eq_refl eq_refl) as (Hi & Hr & _).
  repeat split; assumption.
Defined.

(** Three joins: one with the insecure flag, a pin and a CA path, which
    runs the insecure strategy; one with a pin and a CA path, which runs the
    pin strategy; one with no trust strategy at all. *)
Lemma strategy_precedence_witness :
  let insecure := Fake.params "t1" "/etc/ca.pem" "sha256:CA-BBB" true in
  let pinned := Fake.params "t1" "/etc/ca.pem" "sha256:CA-AAA" false in
  let unset := Fake.params "/etc/token" "" "" false in
  (exists (tTok : list Entry) (tok : string) (tRest : list Entry),
     fst (Fake.join Fake.authority insecure) = tTok ++ tRest /\
     traces (readToken (RegisterParams.Token insecure)) tTok (Ok tok) /\
     traces (built <- @insecureRegisterClient Fake.collaborators insecure ;;
             @registerWith Fake.collaborators insecure tok built)
            tRest (snd (Fake.join Fake.authority insecure))) /\
  (exists (tTok : list Entry) (tok : string) (tRest : list Entry),
     fst (Fake.join Fake.authority pinned) = tTok ++ tRest /\
     traces (readToken (RegisterParams.Token pinned)) tTok (Ok tok) /\
     traces (built <- @pinRegisterClient Fake.collaborators pinned ;;
             @registerWith Fake.collaborators pinned tok built)
            tRest (snd (Fake.join Fake.authority pinned))) /\
  (exists (tTok : list Entry) (first : Entry) (rest : list Entry),
     fst (Fake.join Fake.authority pinned) = tTok ++ first :: rest /\
     networkCalls tTok = [] /\ pathReads tTok = [] /\
     projT1 first
     = E_NewTLSClient ["auth:3025"]
         (tls.setInsecureSkipVerify true (Fake.TLSConfig [49199%N]))) /\
  selectStrategy unset = None /\
  snd (Fake.join Fake.authority unset) = Err noStrategy /\
  dials (fst (Fake.join Fake.authority unset)) = [] /\
  networkCalls (fst (Fake.join Fake.authority unset)) = [].
Proof.
  intros insecure pinned unset.
  split; [| split; [| split]].
  - destruct (@strategy_precedence Fake.collaborators insecure)
      as (_ & _ & _ & _ & _ & H & _).
    exact (proj1 (H (fst (Fake.join Fake.authority insecure))
                    (snd (Fake.join Fake.authority insecure)))
                 (run_traces _ _ _)).
  - destruct (@strategy_precedence Fake.collaborators pinned)
      as (_ & _ & _ & _ & _ & H & _).
    exact (proj1 (H (fst (Fake.join Fake.authority pinned))
                    (snd (Fake.join Fake.authority pinned)))
                 (run_traces _ _ _)).
  - destruct (@strategy_precedence Fake.collaborators pinned)
      as (_ & _ & Hsel & _ & _ & _ & H).
    exact (H (fst (Fake.join Fake.authority pinned))
             (snd (Fake.join Fake.authority pinned)) Pin
             (run_traces _ _ _) (Hsel eq_refl ltac:(discriminate))).
  - destruct (@strategy_precedence Fake.collaborators unset)
      as (_ & _ & _ & _ & H & _).
    destruct (H eq_refl eq_refl eq_refl) as (Hnone & Hrun).
    split; [exact Hnone|].
    exact (Hrun (fst (Fake.join Fake.authority unset))
                (snd (Fake.join Fake.authority unset)) (run_traces _ _ _)).
Defined.

(** A join with the pin of the CA of the authority. *)
Lemma pin_match_exclusive_trust_witness :
  let params := Fake.params "t1" "" "sha256:CA-AAA" false in
  let out := Fake.join Fake.authority params in
  let cert := Certificate.Build (bytes_of_string "CA-AAA") "CA-AAA"
                (bytes_of_string "CA-AAA") in
  In (0, Ok (LocalCAResponse.Build (bytes_of_string "CA-AAA"))) (fetches (fst out)) /\
  tls.RootCAs (tls.setRootCAs [cert] (Fake.TLSConfig [49199%N])) = Some [cert] /\
  map (fun d => tls.RootCAs (snd (fst d))) (dials (fst out)) = [None; Some [cert]].
Proof.
  intros params out cert.
  assert (Hin : In (0, Ok (LocalCAResponse.Build (bytes_of_string "CA-AAA")))
                   (fetches (fst out)))
    by (vm_compute; left; reflexivity).
  pose proof (@pin_match_exclusive_trust Fake.collaborators params (fst out) (snd out)
                0 (LocalCAResponse.Build (bytes_of_string "CA-AAA")) cert
                eq_refl ltac:(discriminate) (run_traces _ _ _) Hin eq_refl eq_refl)
    as (Hpool & _).
  split; [exact Hin|]. split; [exact Hpool | reflexivity].
Defined.

(** The scenario of the design: pin [sha256:CA-AAA], token [t1], an authority
    with that CA which issues [B1]. *)
Lemma register_round_trip_witness :
  let params := Fake.params "t1" "" "sha256:CA-AAA" false in
  let out := Fake.join Fake.authority params in
  In (1, registerRequest params "t1", Ok Fake.B1) (issuances (fst out)) /\
  snd out = Fake.ReadIdentityFromKeyPair (bytes_of_string "node-key")
              (PackedKeys.Cert Fake.B1) (PackedKeys.TLSCert Fake.B1)
              (PackedKeys.TLSCACerts Fake.B1) /\
  length (fetches (fst out)) = 1 /\ length (issuances (fst out)) = 1.
Proof.
  intros params out.
  assert (Hin : In (1, registerRequest params "t1", Ok Fake.B1) (issuances (fst out)))
    by (vm_compute; left; reflexivity).
  pose proof (@register_round_trip Fake.collaborators params (fst out) (snd out)
                1 (registerRequest params "t1") Fake.B1
                (run_traces _ _ _) Hin) as (Hr & Hcount).
  split; [exact Hin|]. split; [exact Hr|].
  apply Hcount; [reflexivity | discriminate].
Defined.

(** The same join with another private key makes the same calls. *)
Lemma private_key_not_transmitted_witness :
  let params := Fake.params "t1" "" "sha256:CA-AAA" false in
  let out := Fake.join Fake.authority params in
  (exists r' : result Fake.Identity,
     traces (@Register Fake.collaborators
               (withPrivateKey (bytes_of_string "another-key") params))
            (fst out) r') /\
  RegisterUsingTokenRequest.PublicTLSKey (registerRequest params "t1")
  = bytes_of_string "tls-pub".
Proof.
  intros params out.
  destruct (@private_key_not_transmitted Fake.collaborators) as (H1 & _ & H3 & _).
  split.
  - exact (H1 params (bytes_of_string "another-key") (fst out) (snd out)
             (run_traces _ _ _)).
  - assert (Hin : In (1, registerRequest params "t1", Ok Fake.B1)
                     (issuances (fst out)))
      by (vm_compute; left; reflexivity).
    destruct (H3 params (fst out) (snd out) 1 (registerRequest params "t1")
                (Ok Fake.B1) (run_traces _ _ _) Hin) as (_ & Htls & _).
    exact Htls.
Defined.

(** Both clients of a join with a pin are closed. *)
Lemma clients_closed_exactly_once_witness :
  let params := Fake.params "t1" "" "sha256:CA-AAA" false in
  let out := Fake.join Fake.authority params in
  collect opens (fst out) = [0; 1] /\
  lifecycle (fst out) [] = Some [] /\
  closed 0 (fst out) = built 0 (fst out) /\ closed 1 (fst out) = built 1 (fst out).
Proof.
  intros params out.
  pose proof (@clients_closed_exactly_once Fake.collaborators params (fst out) (snd out)
                (run_traces _ _ _)) as (Hl & Hc).
  split; [reflexivity|]. split; [exact Hl|]. split; apply Hc.
Defined.

(** A local registration against the authority of the double. *)
Lemma LocalRegister_assembles_returned_key_witness :
  let out := Fake.localJoin Fake.authority Fake.nodeID ["alias"] in
  networkCalls (fst out) = [] /\ fileReads (fst out) = [] /\
  snd out = Ok (Fake.BuildIdentity (PackedKeys.Key Fake.B1) (PackedKeys.Cert Fake.B1)
                  (PackedKeys.TLSCert Fake.B1) (PackedKeys.TLSCACerts Fake.B1)).
Proof.
  intro out.
  pose proof (@LocalRegister_assembles_returned_key Fake.collaborators Fake.nodeID 0
                ["alias"] (fst out) (snd out) (run_traces _ _ _)) as (Hn & Hf & _).
  split; [exact Hn|]. split; [exact Hf | reflexivity].
Defined.

(** C7 as stated fails.  Two authorities that return the same certificates
    and differ in the private key of the bundle make [LocalRegister], called
    with the same arguments, return two Identities with different private
    keys, each the key of the bundle: no private key held by the caller and
    assembled with those certificates gives both. *)
Lemma LocalRegister_caller_key_counterexample :
  let out1 := Fake.localJoin Fake.authority Fake.nodeID ["alias"] in
  let out2 := Fake.localJoin Fake.authority2 Fake.nodeID ["alias"] in
  PackedKeys.Cert Fake.B1 = PackedKeys.Cert Fake.B2 /\
  PackedKeys.TLSCert Fake.B1 = PackedKeys.TLSCert Fake.B2 /\
  PackedKeys.TLSCACerts Fake.B1 = PackedKeys.TLSCACerts Fake.B2 /\
  option_map Fake.PrivateKey
    (match snd out1 with Ok i => Some i | Err _ => None end)
  = Some (bytes_of_string "authority-key") /\
  option_map Fake.PrivateKey
    (match snd out2 with Ok i => Some i | Err _ => None end)
  = Some (bytes_of_string "another-key") /\
  ~ (exists callerKey : bytes,
       snd out1 = Fake.ReadIdentityFromKeyPair callerKey (PackedKeys.Cert Fake.B1)
                    (PackedKeys.TLSCert Fake.B1) (PackedKeys.TLSCACerts Fake.B1) /\
       snd out2 = Fake.ReadIdentityFromKeyPair callerKey (PackedKeys.Cert Fake.B2)
                    (PackedKeys.TLSCert Fake.B2) (PackedKeys.TLSCACerts Fake.B2)).
Proof.
  intros out1 out2.
  repeat (split; [reflexivity|]).
  intros (callerKey & H1 & H2).
  vm_compute in H1, H2.
  destruct callerKey as [| b k]; [discriminate|].
  inversion H1. inversion H2. congruence.
Defined.

(** The two tokens of the design: a literal one, and the path of a file
    that holds [mytoken] and a line feed. *)
Lemma readToken_resolves_witness :
  Fake.resolve Fake.authority "abc123" = ([], Ok "abc123") /\
  fileReads (fst (Fake.resolve Fake.authority "/etc/token"))
  = [("/etc/token", Ok (bytes_of_string ("mytoken" ++ String "010" "")))] /\
  snd (Fake.resolve Fake.authority "/etc/token") = Ok "mytoken".
Proof.
  split; [| split; [reflexivity|]].
  - pose proof (readToken_resolves "abc123"
                  (fst (Fake.resolve Fake.authority "abc123"))
                  (snd (Fake.resolve Fake.authority "abc123"))
                  (run_traces _ _ _)) as (Hlit & _).
    destruct (Hlit eq_refl) as (Ht & Hr).
    rewrite (surjective_pairing (Fake.resolve Fake.authority "abc123")), Ht, Hr.
    reflexivity.
  - pose proof (readToken_resolves "/etc/token"
                  (fst (Fake.resolve Fake.authority "/etc/token"))
                  (snd (Fake.resolve Fake.authority "/etc/token"))
                  (run_traces _ _ _)) as (_ & Hfile & Hex).
    destruct (Hfile eq_refl) as (x & Ht & Hr).
    apply (f_equal fileReads) in Ht. vm_compute in Ht.
    inversion Ht as [Hx].
    rewrite (proj1 (Hr _ (eq_sym Hx))). exact (f_equal Ok Hex).
Defined.

(** A join whose token names a file that is not there. *)
Lemma unreadable_token_file_gives_empty_token_witness :
  let params := Fake.params "/etc/missing" "/etc/ca.pem" "" false in
  let out := Fake.join Fake.authority params in
  snd (Fake.resolve Fake.authority "/etc/missing") = Ok "" /\
  In ("/etc/missing", Err (Failure "no such file or directory")) (fileReads (fst out)) /\
  map (fun i => RegisterUsingTokenRequest.Token (snd (fst i))) (issuances (fst out)) = [""] /\
  forall (clt : Client) (req : RegisterUsingTokenRequest.t) (ans : result PackedKeys.t),
    In (clt, req, ans) (issuances (fst out)) ->
    RegisterUsingTokenRequest.Token req = "".
Proof.
  intros params out.
  destruct (@unreadable_token_file_gives_empty_token Fake.collaborators) as (H1 & H2).
  assert (Hin : In ("/etc/missing", Err (Failure "no such file or directory"))
                   (fileReads (fst out)))
    by (vm_compute; left; reflexivity).
  split.
  - apply (H1 "/etc/missing" (fst (Fake.resolve Fake.authority "/etc/missing")) _
              (Failure "no such file or directory") (run_traces _ _ _)).
    vm_compute; left; reflexivity.
  - split; [exact Hin|]. split; [reflexivity|].
    destruct (H2 params (fst out) (snd out) _ (run_traces _ _ _) Hin)
      as (tRest & _ & _ & Hreq).
    exact Hreq.
Defined.

(** A rotation for a host UUID with a cluster part. *)
Lemma ReRegister_issues_one_call_witness :
  let params := Fake.rotation "host1.example" in
  let out := Fake.rejoin Fake.authority params in
  dials (fst out) = [] /\ fetches (fst out) = [] /\ fileReads (fst out) = [] /\
  issuances (fst out) = [] /\
  generations (fst out) = [(7, reRegisterRequest params "host1", Ok Fake.B1)] /\
  snd out = Fake.ReadIdentityFromKeyPair (bytes_of_string "node-key")
              (PackedKeys.Cert Fake.B1) (PackedKeys.TLSCert Fake.B1)
              (PackedKeys.TLSCACerts Fake.B1).
Proof.
  intros params out.
  pose proof (@ReRegister_issues_one_call Fake.collaborators params (fst out) (snd out)
                (run_traces _ _ _)) as (Hd & Hf & Hr & Hi & Hcall).
  change (@HostID Fake.collaborators (ReRegisterParams.ID params))
    with (@Ok string "host1") in Hcall.
  destruct Hcall as (ans & Ht & Hres).
  apply (f_equal generations) in Ht. cbn in Ht.
  repeat (split; [assumption|]).
  split; [reflexivity|].
  assert (Ha : ans = Ok Fake.B1).
  { vm_compute in Ht. inversion Ht. reflexivity. }
  rewrite Hres, Ha. reflexivity.
Defined.

(** C10 as stated fails, in two ways.  The client of the double answers every
    request with a bundle.  First, for a host UUID without a cluster part
    [HostID()] fails and [ReRegister] returns the error without a single call.
    Second, two rotations for two different host identities get the same
    bundle and so return the same Identity, which cannot carry both. *)
Lemma ReRegister_counterexample :
  (forall req : GenerateServerKeysRequest.t,
     Fake.generate Fake.authority req = Ok Fake.B1) /\
  Fake.rejoin Fake.authority (Fake.rotation "host1")
  = ([], Err (BadParameter "expected 2 parts in host UUID")) /\
  Fake.HostID (ReRegisterParams.ID (Fake.rotation "host1.example")) = Ok "host1" /\
  Fake.HostID (ReRegisterParams.ID (Fake.rotation "host2.example")) = Ok "host2" /\
  exists i : Fake.Identity,
    snd (Fake.rejoin Fake.authority (Fake.rotation "host1.example")) = Ok i /\
    snd (Fake.rejoin Fake.authority (Fake.rotation "host2.example")) = Ok i /\
    forall hostOf : Fake.Identity -> string,
      ~ (hostOf i = "host1" /\ hostOf i = "host2").
Proof.
  split; [intro req; reflexivity|].
  split; [reflexivity|].
  split; [reflexivity|].
  split; [reflexivity|].
  eexists. split; [reflexivity|]. split; [reflexivity|].
  intros hostOf [H1 H2]. rewrite H1 in H2. discriminate.
Defined.

(** ** More on [Register] and its three strategies *)

(** Settle a goal about explicit lists of client handles by comparing the
    handles that occur in it. *)
Ltac compare_handles :=
  repeat (progress cbn || rewrite Nat.eqb_refl ||
          match goal with
          | |- context [Nat.eqb ?a ?b] =>
              let E := fresh "E" in
              destruct (Nat.eqb a b) eqn:E;
              [apply Nat.eqb_eq in E; subst | ]
          | |- context [Nat.eq_dec ?a ?b] =>
              destruct (Nat.eq_dec a b); [subst |]
          end); try reflexivity; try congruence.

Section Strategies.

Context {collaborators : Collaborators}.

(** The token step reads no CA file. *)
Lemma readToken_no_pathRead (token : string) (t : list Entry) (r : result string) :
  traces (readToken token) t r -> pathReads t = [].
Proof.
  intro H.
  destruct (readToken_cases _ _ _ H) as [(_ & -> & _) | (_ & x & -> & _)];
    reflexivity.
Qed.

(** A strategy never touches what a strategy of lower precedence would use:
    with the insecure flag no CA is fetched and no CA file is read, whatever
    the pin and the path; with a pin the CA file is not read, whatever the
    path; and the path strategy fetches no CA. *)
Theorem strategy_skips_the_others
    (params : RegisterParams.t) (t : list Entry) (r : result Identity) :
  traces (Register params) t r ->
  (RegisterParams.InsecureSkipCAVerification params = true ->
   fetches t = [] /\ pathReads t = []) /\
  (RegisterParams.InsecureSkipCAVerification params = false ->
   RegisterParams.CAPin params <> "" ->
   pathReads t = []) /\
  (RegisterParams.InsecureSkipCAVerification params = false ->
   RegisterParams.CAPin params = "" ->
   fetches t = []).
Proof.
  intro H.
  apply Register_cases in H. destruct H as (tTok & tok & tRest & -> & Htok & H).
  pose proof (readToken_no_pathRead _ _ _ Htok) as Hp.
  destruct (readToken_quiet _ _ _ Htok) as (_ & Hf & _).
  unfold fetches, pathReads in *. rewrite !collect_app, Hf, Hp. cbn [app].
  unfold registerFrom in H.
  split; [| split].
  - intro Hins. rewrite Hins in H.
    unfold insecureRegisterClient, registerWith in H.
    exec H; split; reflexivity.
  - intros Hins Hpin. apply String.eqb_neq in Hpin.
    rewrite Hins, Hpin in H. cbn [negb] in H.
    unfold pinRegisterClient, registerWith in H.
    exec H; reflexivity.
  - intros Hins Hpin. rewrite Hins, Hpin in H. cbn [negb String.eqb] in H.
    unfold pathRegisterClient, registerWith in H.
    exec H; reflexivity.
Qed.

(** With the insecure flag, the warning is logged before anything goes over
    the network, and the one client of the run is built with
    [InsecureSkipVerify] set, for the servers of the parameters. *)
Theorem insecure_warns_then_dials
    (params : RegisterParams.t) (t : list Entry) (r : result Identity) :
  RegisterParams.InsecureSkipCAVerification params = true ->
  traces (Register params) t r ->
  exists (tTok : list Entry) (msg : string) (ans : result Client) (rest : list Entry),
    networkCalls tTok = [] /\
    t = tTok ++
        entry (E_Warnf msg) tt ::
        entry (E_NewTLSClient (RegisterParams.Servers params)
                 (tls.setInsecureSkipVerify true
                    (TLSConfig (RegisterParams.CipherSuites params))))
              ans :: rest /\
    dials rest = [] /\
    match ans with
    | Err e => rest = [] /\ r = Err e
    | Ok clt =>
        exists (tok : string) (issued : result PackedKeys.t) (closeErr : option error),
          rest = [ entry (E_RegisterUsingToken clt (registerRequest params tok)) issued;
                   entry (E_Close clt) closeErr ]
    end.
Proof.
  intros Hins H.
  apply Register_cases in H. destruct H as (tTok & tok & tRest & -> & Htok & H).
  destruct (readToken_quiet _ _ _ Htok) as (_ & _ & _ & Hn & _).
  unfold registerFrom in H. rewrite Hins in H.
  unfold insecureRegisterClient, registerWith in H.
  exec H.
  all: match goal with x : unit |- _ => destruct x end.
  all: exists tTok; do 3 eexists; split; [exact Hn|]; split; [reflexivity|];
       split; [reflexivity|].
  - do 3 eexists. reflexivity.
  - do 3 eexists. reflexivity.
  - split; reflexivity.
Qed.

(** With the path strategy, a CA file that cannot be read or does not parse
    ends [Register] before any client is built: the error of the read is
    returned as it is, the error of the parser with the path attached to
    it. *)
Theorem path_failures_build_no_client
    (params : RegisterParams.t) (t : list Entry) (r : result Identity) :
  RegisterParams.InsecureSkipCAVerification params = false ->
  RegisterParams.CAPin params = "" ->
  RegisterParams.CAPath params <> "" ->
  traces (Register params) t r ->
  (forall (path : string) (e : error),
     In (path, Err e) (pathReads t) ->
     path = RegisterParams.CAPath params /\
     r = Err e /\ networkCalls t = []) /\
  (forall (path : string) (certBytes : bytes) (e : error),
     In (path, Ok certBytes) (pathReads t) ->
     ParseCertificatePEM certBytes = Err e ->
     r = Err (Annotated e "failed to parse certificate at %v"
                (RegisterParams.CAPath params)) /\
     networkCalls t = []).
Proof.
  intros Hins Hpin Hpath H. apply String.eqb_neq in Hpath.
  apply Register_cases in H. destruct H as (tTok & tok & tRest & -> & Htok & H).
  pose proof (readToken_no_pathRead _ _ _ Htok) as Hp.
  destruct (readToken_quiet _ _ _ Htok) as (_ & _ & _ & Hn & _).
  unfold pathReads, networkCalls in *.
  rewrite collect_app, Hp, filter_app, Hn. cbn [app].
  unfold registerFrom in H. rewrite Hins, Hpin, Hpath in H.
  cbn [negb String.eqb] in H.
  unfold pathRegisterClient, registerWith in H.
  split.
  - intros path e Hin.
    exec H; cbn in Hin; try contradiction.
    all: destruct Hin as [Hin | []]; inversion Hin; subst.
    repeat split; reflexivity.
  - intros path certBytes e Hin Hparse.
    exec H; cbn in Hin; try contradiction.
    all: destruct Hin as [Hin | []]; inversion Hin; subst; try congruence.
    assert (e = e0) by congruence. subst e0.
    split; reflexivity.
Qed.

(** With the path strategy and a CA file that parses, the one client of the
    run is built with a [RootCAs] pool that holds the certificate of the file
    and nothing else; the request goes to that client, which is closed. *)
Theorem path_exclusive_trust
    (params : RegisterParams.t) (t : list Entry) (r : result Identity)
    (path : string) (certBytes : bytes) (cert : Certificate.t) :
  RegisterParams.InsecureSkipCAVerification params = false ->
  RegisterParams.CAPin params = "" ->
  RegisterParams.CAPath params <> "" ->
  traces (Register params) t r ->
  In (path, Ok certBytes) (pathReads t) ->
  ParseCertificatePEM certBytes = Ok cert ->
  path = RegisterParams.CAPath params /\
  exists ans : result Client,
    dials t = [ (RegisterParams.Servers params,
                 tls.setRootCAs [cert]
                   (TLSConfig (RegisterParams.CipherSuites params)),
                 ans) ] /\
    match ans with
    | Err e => r = Err e /\ issuances t = [] /\ collect closes t = []
    | Ok clt =>
        exists (tok : string) (issued : result PackedKeys.t),
          issuances t = [(clt, registerRequest params tok, issued)] /\
          collect closes t = [clt]
    end.
Proof.
  intros Hins Hpin Hpath H Hin Hparse. apply String.eqb_neq in Hpath.
  apply Register_cases in H. destruct H as (tTok & tok & tRest & -> & Htok & H).
  pose proof (readToken_no_pathRead _ _ _ Htok) as Hp.
  destruct (readToken_quiet _ _ _ Htok) as (Hd & _ & Hi & _ & _ & Hc).
  unfold pathReads, dials, issuances in *.
  rewrite collect_app, Hp in Hin. rewrite !collect_app, Hd, Hi, Hc. cbn [app] in *.
  unfold registerFrom in H. rewrite Hins, Hpin, Hpath in H.
  cbn [negb String.eqb] in H.
  unfold pathRegisterClient, registerWith in H.
  exec H; cbn in Hin; try contradiction.
  all: destruct Hin as [Hin | []]; inversion Hin; subst; try congruence.
  all: match goal with E1 : ParseCertificatePEM _ = Ok ?c |- _ =>
         is_var c; assert (cert = c) by congruence; subst c end.
  all: split; [reflexivity|]; eexists; split; [reflexivity|]; cbn.
  - do 2 eexists. split; reflexivity.
  - do 2 eexists. split; reflexivity.
  - repeat split; reflexivity.
Qed.

(** With the pin strategy, trust comes first: a second client is built, and
    a request sent, only in a run in which a CA was fetched, parsed and
    passed the pin check. *)
Theorem pin_checked_before_second_client
    (params : RegisterParams.t) (t : list Entry) (r : result Identity) :
  RegisterParams.InsecureSkipCAVerification params = false ->
  RegisterParams.CAPin params <> "" ->
  traces (Register params) t r ->
  2 <= length (dials t) \/ issuances t <> [] ->
  exists (clt : Client) (ca : LocalCAResponse.t) (cert : Certificate.t),
    fetches t = [(clt, Ok ca)] /\
    ParseCertificatePEM (LocalCAResponse.TLSCA ca) = Ok cert /\
    CheckSKPI (RegisterParams.CAPin params) cert = None.
Proof.
  intros Hins Hpin H Hmore. apply String.eqb_neq in Hpin.
  apply Register_cases in H. destruct H as (tTok & tok & tRest & -> & Htok & H).
  destruct (readToken_quiet _ _ _ Htok) as (Hd & Hf & Hi & _).
  unfold dials, fetches, issuances in *.
  rewrite !collect_app, Hd, Hi in Hmore. rewrite collect_app, Hf. cbn [app] in *.
  unfold registerFrom in H. rewrite Hins, Hpin in H. cbn [negb] in H.
  unfold pinRegisterClient, registerWith in H.
  exec H; cbn in Hmore |- *.
  all: try (destruct Hmore as [Hmore | Hmore]; [lia | congruence]).
  all: do 3 eexists; split; [reflexivity|]; split; eassumption.
Qed.

(** With the pin strategy, a first connection that cannot be made, a CA that
    cannot be fetched and a CA that does not parse all end [Register] with
    that error, with one client built at most, closed if it was built, and
    nothing sent. *)
Theorem pin_first_phase_failures
    (params : RegisterParams.t) (t : list Entry) (r : result Identity) :
  RegisterParams.InsecureSkipCAVerification params = false ->
  RegisterParams.CAPin params <> "" ->
  traces (Register params) t r ->
  (fetches t = [] ->
   exists e : error,
     dials t = [ (RegisterParams.Servers params,
                  tls.setInsecureSkipVerify true
                    (TLSConfig (RegisterParams.CipherSuites params)),
                  Err e) ] /\
     r = Err e /\ length (networkCalls t) = 1) /\
  (forall (clt : Client) (e : error),
     In (clt, Err e) (fetches t) ->
     r = Err e /\ collect opens t = [clt] /\ collect closes t = [clt] /\
     issuances t = []) /\
  (forall (clt : Client) (ca : LocalCAResponse.t) (e : error),
     In (clt, Ok ca) (fetches t) ->
     ParseCertificatePEM (LocalCAResponse.TLSCA ca) = Err e ->
     r = Err e /\ collect opens t = [clt] /\ collect closes t = [clt] /\
     issuances t = []).
Proof.
  intros Hins Hpin H. apply String.eqb_neq in Hpin.
  apply Register_cases in H. destruct H as (tTok & tok & tRest & -> & Htok & H).
  destruct (readToken_quiet _ _ _ Htok) as (Hd & Hf & Hi & Hn & Ho & Hc).
  unfold dials, fetches, issuances, networkCalls in *.
  rewrite !collect_app, filter_app, Hd, Hf, Hi, Hn, Ho, Hc. cbn [app].
  unfold registerFrom in H. rewrite Hins, Hpin in H. cbn [negb] in H.
  unfold pinRegisterClient, registerWith in H.
  split; [| split].
  - intro Hnone. exec H; cbn in Hnone; try discriminate.
    eexists. repeat split; reflexivity.
  - intros clt e Hin. exec H; cbn in Hin; try contradiction.
    all: destruct Hin as [Hin | []]; inversion Hin; subst.
    repeat split; reflexivity.
  - intros clt ca e Hin Hparse. exec H; cbn in Hin; try contradiction.
    all: destruct Hin as [Hin | []]; inversion Hin; subst; try congruence.
    assert (e = e0) by congruence. subst e0.
    repeat split; reflexivity.
Qed.

(** [Register] does not retry: a run sends one request at most and builds
    two clients at most, one at most outside the pin strategy; and every
    client is built for the servers of the parameters, with the cipher
    suites that [utils.TLSConfig] sets for the parameters. *)
Theorem register_no_retry
    (params : RegisterParams.t) (t : list Entry) (r : result Identity) :
  traces (Register params) t r ->
  length (issuances t) <= 1 /\
  length (dials t) <= 2 /\
  (RegisterParams.InsecureSkipCAVerification params = true \/
   RegisterParams.CAPin params = "" -> length (dials t) <= 1) /\
  forall (servers : list NetAddr) (cfg : tls.Config) (ans : result Client),
    In (servers, cfg, ans) (dials t) ->
    servers = RegisterParams.Servers params /\
    tls.CipherSuites cfg
    = tls.CipherSuites (TLSConfig (RegisterParams.CipherSuites params)).
Proof.
  intro H.
  apply Register_cases in H. destruct H as (tTok & tok & tRest & -> & Htok & H).
  destruct (readToken_quiet _ _ _ Htok) as (Hd & _ & Hi & _).
  unfold dials, issuances in *.
  rewrite !collect_app, Hd, Hi. cbn [app].
  unfold registerFrom, insecureRegisterClient, pinRegisterClient,
    pathRegisterClient, registerWith in H.
  exec H; cbn.
  all: split; [lia|]; split; [lia|]; split.
  all: try (intros _; lia).
  all: try (intros [Hi' | Hp']; [congruence | rewrite Hp' in *; discriminate]).
  all: intros servers cfg ans Hin.
  all: repeat (destruct Hin as [Hin | Hin]; [inversion Hin; split; reflexivity |]).
  all: contradiction.
Qed.

(** An authority that turns the request down ends [Register] with the error
    of the authority; no Identity is assembled. *)
Theorem register_propagates_rejection
    (params : RegisterParams.t) (t : list Entry) (r : result Identity)
    (clt : Client) (req : RegisterUsingTokenRequest.t) (e : error) :
  traces (Register params) t r ->
  In (clt, req, Err e) (issuances t) ->
  r = Err e /\ closed clt t = built clt t.
Proof.
  intros H Hin.
  apply Register_cases in H. destruct H as (tTok & tok & tRest & -> & Htok & H).
  destruct (readToken_quiet _ _ _ Htok) as (_ & _ & Hi & _ & Ho & Hc).
  unfold issuances, closed, built in *.
  rewrite collect_app, Hi in Hin. rewrite !collect_app, Ho, Hc. cbn [app] in *.
  unfold registerFrom, insecureRegisterClient, pinRegisterClient,
    pathRegisterClient, registerWith in H.
  exec H; cbn in Hin; try contradiction.
  all: destruct Hin as [Hin | []]; inversion Hin; subst.
  all: split; [reflexivity|]; cbn; compare_handles.
Qed.

(** What a request of [Register] carries: the host UUID as it is (not the
    result of [HostID()]), the node name, the role and the additional
    principals of the parameters, and as token the token of the parameters
    when it does not begin with [/], the trimmed content of the file of that
    name when the file was read. *)
Theorem register_request_contents
    (params : RegisterParams.t) (t : list Entry) (r : result Identity)
    (clt : Client) (req : RegisterUsingTokenRequest.t) (ans : result PackedKeys.t) :
  traces (Register params) t r ->
  In (clt, req, ans) (issuances t) ->
  RegisterUsingTokenRequest.HostID req = IdentityID.HostUUID (RegisterParams.ID params) /\
  RegisterUsingTokenRequest.NodeName req = IdentityID.NodeName (RegisterParams.ID params) /\
  RegisterUsingTokenRequest.Role req = IdentityID.Role (RegisterParams.ID params) /\
  RegisterUsingTokenRequest.AdditionalPrincipals req
  = RegisterParams.AdditionalPrincipals params /\
  (strings.HasPrefix (RegisterParams.Token params) "/" = false ->
   RegisterUsingTokenRequest.Token req = RegisterParams.Token params) /\
  (forall (name : string) (out : bytes),
     In (name, Ok out) (fileReads t) ->
     name = RegisterParams.Token params /\
     RegisterUsingTokenRequest.Token req = strings.TrimSpace (string_of_bytes out)).
Proof.
  intros H Hin.
  apply Register_cases in H. destruct H as (tTok & tok & tRest & -> & Htok & H).
  destruct (registerFrom_requests _ _ _ _ H) as (Hfr & Hreq).
  destruct (readToken_quiet _ _ _ Htok) as (_ & _ & Hi & _).
  unfold issuances, fileReads in *.
  rewrite collect_app, Hi in Hin. rewrite collect_app, Hfr, app_nil_r.
  rewrite (Hreq _ _ _ Hin).
  repeat (split; [reflexivity|]).
  destruct (readToken_cases _ _ _ Htok) as [(Hp & -> & Hr) | (Hp & x & -> & Hr)].
  - inversion Hr; subst tok. split; [reflexivity|].
    intros name out [].
  - split; [congruence|].
    intros name out Hread. cbn in Hread. destruct Hread as [Hread | []].
    inversion Hread; subst. inversion Hr. split; reflexivity.
Qed.

(** No use after close: in every run of [Register], [GetLocalCA] and
    [RegisterUsingToken] are called on a client that was built and is not
    closed yet. *)
Theorem methods_called_on_open_clients
    (params : RegisterParams.t) (t : list Entry) (r : result Identity) :
  traces (Register params) t r -> wellUsed t [] = true.
Proof.
  intro H.
  apply Register_cases in H. destruct H as (tTok & tok & tRest & -> & Htok & H).
  assert (Hpre : wellUsed (tTok ++ tRest) [] = wellUsed tRest []).
  { destruct (readToken_cases _ _ _ Htok) as [(_ & -> & _) | (_ & x & -> & _)];
      reflexivity. }
  rewrite Hpre.
  unfold registerFrom, insecureRegisterClient, pinRegisterClient,
    pathRegisterClient, registerWith in H.
  exec H; cbn; compare_handles.
Qed.

(** [readToken] never returns an error, makes one call at most and none over
    the network: the test on its error in [Register] (lines 89 to 91) never
    fires, and [Register] returns an error of the token step in no run. *)
Theorem readToken_never_fails (token : string) (t : list Entry) (r : result string) :
  traces (readToken token) t r ->
  (exists tok : string, r = Ok tok) /\ length t <= 1 /\ networkCalls t = [].
Proof.
  intro H.
  destruct (readToken_cases _ _ _ H) as [(_ & -> & ->) | (_ & x & -> & ->)].
  - split; [eexists; reflexivity|]. split; [cbn; lia | reflexivity].
  - split; [destruct x; eexists; reflexivity|]. split; [cbn; lia | reflexivity].
Qed.

End Strategies.

(** ** [strings.TrimSpace] returns the only trimmed form *)

Lemma isPrefix_self_app (p rest : list N) : strings.isPrefix p (p ++ rest) = true.
Proof.
  induction p as [| a p IH]; simpl; [reflexivity|].
  rewrite N.eqb_refl. exact IH.
Qed.

Lemma isPrefix_comparable (p q s : list N) :
  strings.isPrefix p s = true -> strings.isPrefix q s = true ->
  strings.isPrefix p q = true \/ strings.isPrefix q p = true.
Proof.
  revert q s. induction p as [| a p IH]; intros q s Hp Hq; [left; reflexivity|].
  destruct q as [| b q]; [right; reflexivity|].
  destruct s as [| c s]; [discriminate|]. simpl in *.
  apply andb_true_iff in Hp. destruct Hp as [Hac Hp].
  apply andb_true_iff in Hq. destruct Hq as [Hbc Hq].
  apply N.eqb_eq in Hac. apply N.eqb_eq in Hbc. subst a b.
  rewrite N.eqb_refl. simpl. exact (IH q s Hp Hq).
Qed.

Lemma prefixFree_eq (runes : list (list N)) (p q : list N) :
  prefixFree runes = true -> In p runes -> In q runes ->
  strings.isPrefix p q = true -> p = q.
Proof.
  intros Hfree Hp Hq Hpre. unfold prefixFree in Hfree.
  rewrite forallb_forall in Hfree. specialize (Hfree p Hp).
  rewrite forallb_forall in Hfree. specialize (Hfree q Hq).
  rewrite Hpre in Hfree. simpl in Hfree.
  destruct (list_eq_dec N.eq_dec p q); [assumption | discriminate].
Qed.

Lemma find_first {A : Type} (f : A -> bool) (l : list A) (x : A) :
  In x l -> f x = true -> exists y : A, find f l = Some y.
Proof.
  induction l as [| a l IH]; intros Hin Hx; [contradiction|]. simpl.
  destruct (f a) eqn:E; [eexists; reflexivity|].
  destruct Hin as [-> | Hin]; [congruence | exact (IH Hin Hx)].
Qed.

(** In a prefix-free table, the encoding found at the front of a string that
    starts with an encoding is that encoding. *)
Lemma leadingSpace_found (runes : list (list N)) (q rest : list N) :
  prefixFree runes = true -> In q runes ->
  strings.leadingSpace runes (q ++ rest) = Some q.
Proof.
  intros Hfree Hq. unfold strings.leadingSpace.
  destruct (find_first (fun p => strings.isPrefix p (q ++ rest)) runes q Hq
              (isPrefix_self_app q rest)) as (p & Hfind).
  rewrite Hfind. f_equal.
  apply find_some in Hfind. destruct Hfind as (Hp & Hpre).
  destruct (isPrefix_comparable p q _ Hpre (isPrefix_self_app q rest)) as [H | H].
  - exact (prefixFree_eq runes p q Hfree Hp Hq H).
  - symmetry. exact (prefixFree_eq runes q p Hfree Hq Hp H).
Qed.

Lemma skipn_length_app {A : Type} (p rest : list A) : skipn (length p) (p ++ rest) = rest.
Proof. induction p as [| a p IH]; simpl; [reflexivity | exact IH]. Qed.

Lemma dropSpaces_run (runes : list (list N)) (ps : list (list N)) (m : list N) :
  prefixFree runes = true ->
  Forall (fun p => In p runes) ps ->
  strings.leadingSpace runes m = None ->
  forall fuel : nat, length ps <= fuel ->
    strings.dropSpaces runes fuel (concat ps ++ m) = m.
Proof.
  intros Hfree Hps Hnone. induction Hps as [| p ps Hp _ IH]; intros fuel Hfuel.
  - simpl. destruct fuel; simpl; [reflexivity|]. rewrite Hnone. reflexivity.
  - destruct fuel as [| fuel]; [simpl in Hfuel; lia|].
    simpl. rewrite <- app_assoc.
    rewrite (leadingSpace_found runes p _ Hfree Hp), skipn_length_app.
    apply IH. simpl in Hfuel. lia.
Qed.

Lemma isPrefix_beyond (p tok w : list N) :
  strings.isPrefix p (tok ++ w) = true -> strings.isPrefix p tok = false ->
  tok <> [] ->
  exists (c : N) (w' : list N), In c (tl p) /\ w = c :: w'.
Proof.
  revert tok. induction p as [| a p IH]; intros tok Hpre Hnot Hne; [discriminate|].
  destruct tok as [| b tok]; [congruence|]. simpl in Hpre, Hnot.
  apply andb_true_iff in Hpre. destruct Hpre as [Hab Hpre].
  rewrite Hab in Hnot. simpl in Hnot.
  destruct tok as [| b' tok].
  - simpl in Hpre. destruct p as [| c p]; [discriminate|].
    destruct w as [| d w]; [discriminate|]. simpl in Hpre.
    apply andb_true_iff in Hpre. destruct Hpre as [Hcd _].
    apply N.eqb_eq in Hcd. subst d.
    exists c, w. split; [left; reflexivity | reflexivity].
  - destruct (IH (b' :: tok) Hpre Hnot ltac:(discriminate)) as (c & w' & Hc & Hw).
    exists c, w'. split; [| exact Hw].
    simpl. destruct p; [contradiction | right; exact Hc].
Qed.

Lemma spaces_head (runes : list (list N)) (w : list N) (c : N) (w' : list N) :
  strings.spaces runes w -> w = c :: w' ->
  exists q : list N, In q runes /\ hd_error q = Some c.
Proof.
  intros (ps & Hps & ->). induction Hps as [| p ps Hp _ IH]; [discriminate|].
  simpl. intro Heq. destruct p as [| a p].
  - exact (IH Heq).
  - exists (a :: p). split; [exact Hp|]. simpl in *. congruence.
Qed.

(** Past a string that starts with no encoding, a run of encodings does not
    bring one about. *)
Lemma leadingSpace_past (runes : list (list N)) (tok w : list N) :
  headsApart runes = true ->
  strings.leadingSpace runes tok = None -> tok <> [] ->
  strings.spaces runes w ->
  strings.leadingSpace runes (tok ++ w) = None.
Proof.
  intros Hapart Hnone Hne Hw. apply find_none_intro. intros p Hp.
  destruct (strings.isPrefix p (tok ++ w)) eqn:E; [| reflexivity].
  pose proof (find_none _ _ Hnone p Hp) as Hnot. simpl in Hnot.
  destruct (isPrefix_beyond p tok w E Hnot Hne) as (c & w' & Hc & Heq).
  destruct (spaces_head runes w c w' Hw Heq) as (q & Hq & Hhd).
  unfold headsApart in Hapart.
  rewrite forallb_forall in Hapart. specialize (Hapart p Hp).
  rewrite forallb_forall in Hapart. specialize (Hapart c Hc).
  rewrite forallb_forall in Hapart. specialize (Hapart q Hq).
  destruct q as [| h q]; [discriminate|]. simpl in Hhd.
  inversion Hhd; subst h. rewrite N.eqb_refl in Hapart. discriminate.
Qed.

Lemma rev_concat (ps : list (list N)) :
  rev (concat ps) = concat (map (@rev N) (rev ps)).
Proof.
  induction ps as [| p ps IH]; simpl; [reflexivity|].
  rewrite rev_app_distr, IH, map_app, concat_app. simpl.
  rewrite app_nil_r. reflexivity.
Qed.

Lemma spaces_rev (w : list N) :
  strings.spaces (map (@rev N) strings.spaceRunes) (rev w) ->
  strings.spaces strings.spaceRunes w.
Proof.
  intros (ps & Hps & Heq).
  exists (map (@rev N) (rev ps)). split.
  - apply Forall_forall. intros q Hq.
    apply in_map_iff in Hq. destruct Hq as (p & <- & Hp).
    apply in_rev in Hp. rewrite Forall_forall in Hps.
    specialize (Hps p Hp). apply in_map_iff in Hps.
    destruct Hps as (p0 & <- & Hp0). rewrite rev_involutive. exact Hp0.
  - rewrite <- rev_concat, <- Heq. symmetry. apply rev_involutive.
Qed.

Lemma concat_length_runes (runes ps : list (list N)) :
  Forall (fun p => p <> []) runes -> Forall (fun p => In p runes) ps ->
  length ps <= length (concat ps).
Proof.
  intros Hne Hps. rewrite Forall_forall in Hne.
  induction Hps as [| p ps Hp _ IH]; simpl; [lia|].
  rewrite length_app. specialize (Hne p Hp).
  destruct p; [congruence | simpl; lia].
Qed.

Lemma of_codes_codes (s : string) : strings.of_codes (strings.codes s) = s.
Proof.
  unfold strings.of_codes, strings.codes. rewrite map_map.
  rewrite (map_ext _ (fun a => a)) by apply ascii_N_embedding.
  rewrite map_id. apply string_of_list_ascii_of_string.
Qed.

(** A string has one trimmed form, and [strings.TrimSpace] returns it. *)
Lemma Trimmed_TrimSpace (s out : string) :
  strings.Trimmed s out -> strings.TrimSpace s = out.
Proof.
  intros (l & r & Hs & (ps & Hps & Hl) & Hr & Hfront & Hback).
  assert (Hfree : prefixFree strings.spaceRunes = true) by (vm_compute; reflexivity).
  assert (Hfree' : prefixFree (map (@rev N) strings.spaceRunes) = true)
    by (vm_compute; reflexivity).
  assert (Hapart : headsApart strings.spaceRunes = true) by (vm_compute; reflexivity).
  pose proof (spaces_rev r Hr) as Hr2.
  unfold strings.TrimSpace, strings.trimLeft, strings.trimRight.
  rewrite Hs. subst l.
  pose proof (concat_length_runes _ ps spaceRunes_nonempty Hps) as Hlen.
  destruct (strings.codes out) as [| c0 cs] eqn:Hout.
  - (* nothing is left: the whole string is white space *)
    destruct Hr2 as (qs & Hqs & ->). simpl.
    rewrite <- concat_app, <- (app_nil_r (concat (ps ++ qs))).
    rewrite dropSpaces_run; [| exact Hfree | | reflexivity |].
    + simpl. rewrite <- (of_codes_codes out), Hout. reflexivity.
    + apply Forall_app. split; assumption.
    + rewrite app_nil_r.
      apply (concat_length_runes strings.spaceRunes (ps ++ qs) spaceRunes_nonempty).
      apply Forall_app. split; assumption.
  - rewrite dropSpaces_run; [| exact Hfree | exact Hps | |].
    + destruct Hr as (ps' & Hps' & Hrev).
      rewrite rev_app_distr, Hrev.
      rewrite dropSpaces_run; [| exact Hfree' | exact Hps' | exact Hback |].
      * rewrite rev_involutive, <- Hout. apply of_codes_codes.
      * pose proof (concat_length_runes _ ps' spaceRunes_rev_nonempty Hps') as Hlen'.
        rewrite <- Hrev, length_rev in Hlen'. rewrite length_app. lia.
    + apply leadingSpace_past; [exact Hapart | exact Hfront | discriminate | exact Hr2].
    + rewrite length_app. lia.
Qed.

(** Round trip of a token through a file: when the content of the file is
    the token between any white space, with no white space at either end of
    the token itself, [readToken] gives the token back. *)
Theorem token_file_round_trip
    (token : string) (t : list Entry) (r : result string) (out : bytes) (tok : string) :
  traces (readToken token) t r ->
  In (token, Ok out) (fileReads t) ->
  strings.Trimmed (string_of_bytes out) tok ->
  r = Ok tok.
Proof.
  intros H Hin Htrim.
  destruct (readToken_cases _ _ _ H) as [(_ & -> & _) | (_ & x & -> & ->)].
  - contradiction.
  - cbn in Hin. destruct Hin as [Hin | []]. inversion Hin; subst x.
    rewrite (Trimmed_TrimSpace _ _ Htrim). reflexivity.
Qed.

(** ** The further theorems on the test double *)

(** A join with the insecure flag, a pin that does not match and a CA path:
    neither is looked at. *)
Lemma strategy_skips_the_others_witness :
  let params := Fake.params "t1" "/etc/ca.pem" "sha256:CA-BBB" true in
  let out := Fake.join Fake.authority params in
  fetches (fst out) = [] /\ pathReads (fst out) = [] /\
  snd out = Fake.ReadIdentityFromKeyPair (bytes_of_string "node-key")
              (PackedKeys.Cert Fake.B1) (PackedKeys.TLSCert Fake.B1)
              (PackedKeys.TLSCACerts Fake.B1).
Proof.
  intros params out.
  destruct (@strategy_skips_the_others Fake.collaborators params (fst out) (snd out)
              (run_traces _ _ _)) as (H & _).
  destruct (H eq_refl) as (Hf & Hp).
  split; [exact Hf|]. split; [exact Hp | reflexivity].
Defined.

Lemma insecure_warns_then_dials_witness :
  let params := Fake.params "/etc/token" "" "" true in
  let out := Fake.join Fake.authority params in
  exists (tTok : list Entry) (msg : string) (ans : result Client) (rest : list Entry),
    networkCalls tTok = [] /\
    fst out = tTok ++
        entry (E_Warnf msg) tt ::
        entry (E_NewTLSClient ["auth:3025"]
                 (tls.setInsecureSkipVerify true (Fake.TLSConfig [49199%N])))
              ans :: rest /\
    dials rest = [].
Proof.
  intros params out.
  destruct (@insecure_warns_then_dials Fake.collaborators params (fst out) (snd out)
              eq_refl (run_traces _ _ _))
    as (tTok & msg & ans & rest & Hn & Ht & Hd & _).
  exists tTok, msg, ans, rest. repeat split; assumption.
Defined.

(** A CA path that names no file, and one that names an empty file. *)
Lemma path_failures_build_no_client_witness :
  let missing := Fake.join Fixtures.withFiles (Fake.params "t1" "/etc/none.pem" "" false) in
  let empty := Fake.join Fixtures.withFiles (Fake.params "t1" "/etc/empty.pem" "" false) in
  (snd missing = Err (Failure "no such file or directory") /\
   networkCalls (fst missing) = []) /\
  (snd empty = Err (Annotated (BadParameter "expected PEM-encoded block")
                      "failed to parse certificate at %v" "/etc/empty.pem") /\
   networkCalls (fst empty) = []).
Proof.
  intros missing empty. split.
  - destruct (@path_failures_build_no_client Fake.collaborators
                (Fake.params "t1" "/etc/none.pem" "" false) (fst missing) (snd missing)
                eq_refl eq_refl ltac:(discriminate) (run_traces _ _ _)) as (H & _).
    destruct (H "/etc/none.pem" (Failure "no such file or directory")
                ltac:(vm_compute; left; reflexivity)) as (_ & Hr & Hn).
    split; assumption.
  - destruct (@path_failures_build_no_client Fake.collaborators
                (Fake.params "t1" "/etc/empty.pem" "" false) (fst empty) (snd empty)
                eq_refl eq_refl ltac:(discriminate) (run_traces _ _ _)) as (_ & H).
    exact (H "/etc/empty.pem" [] (BadParameter "expected PEM-encoded block")
             ltac:(vm_compute; left; reflexivity) eq_refl).
Defined.

Lemma path_exclusive_trust_witness :
  let params := Fake.params "t1" "/etc/ca.pem" "" false in
  let out := Fake.join Fake.authority params in
  let cert := Certificate.Build (bytes_of_string "CA-AAA") "CA-AAA"
                (bytes_of_string "CA-AAA") in
  exists ans : result Client,
    dials (fst out)
    = [ (["auth:3025"], tls.setRootCAs [cert] (Fake.TLSConfig [49199%N]), ans) ].
Proof.
  intros params out cert.
  destruct (@path_exclusive_trust Fake.collaborators params (fst out) (snd out)
              "/etc/ca.pem" (bytes_of_string "CA-AAA") cert
              eq_refl eq_refl ltac:(discriminate) (run_traces _ _ _)
              ltac:(vm_compute; left; reflexivity) eq_refl)
    as (_ & ans & Hd & _).
  exists ans. exact Hd.
Defined.

Lemma pin_checked_before_second_client_witness :
  let params := Fake.params "t1" "" "sha256:CA-AAA" false in
  let out := Fake.join Fake.authority params in
  length (dials (fst out)) = 2 /\
  exists (clt : Client) (ca : LocalCAResponse.t) (cert : Certificate.t),
    fetches (fst out) = [(clt, Ok ca)] /\
    Fake.ParseCertificatePEM (LocalCAResponse.TLSCA ca) = Ok cert /\
    Fake.CheckSKPI "sha256:CA-AAA" cert = None.
Proof.
  intros params out. split; [reflexivity|].
  exact (@pin_checked_before_second_client Fake.collaborators params (fst out) (snd out)
           eq_refl ltac:(discriminate) (run_traces _ _ _)
           (or_introl (le_n 2))).
Defined.

(** Joins with a pin against servers that cannot be reached, and against
    servers that do not hand out their CA. *)
Lemma pin_first_phase_failures_witness :
  let params := Fake.params "t1" "" "sha256:CA-AAA" false in
  let down := Fake.join Fixtures.unreachable params in
  let denied := Fake.join Fixtures.withoutCA params in
  (snd down = Err (Failure "connection refused") /\
   length (networkCalls (fst down)) = 1) /\
  (snd denied = Err (Failure "access denied") /\
   collect opens (fst denied) = [0] /\ collect closes (fst denied) = [0] /\
   issuances (fst denied) = []).
Proof.
  intros params down denied. split.
  - destruct (@pin_first_phase_failures Fake.collaborators params (fst down) (snd down)
                eq_refl ltac:(discriminate) (run_traces _ _ _)) as (H & _).
    destruct (H eq_refl) as (e & Hd & Hr & Hn).
    vm_compute in Hd. inversion Hd; subst e. split; assumption.
  - destruct (@pin_first_phase_failures Fake.collaborators params (fst denied)
                (snd denied) eq_refl ltac:(discriminate) (run_traces _ _ _))
      as (_ & H & _).
    exact (H 0 (Failure "access denied") ltac:(vm_compute; left; reflexivity)).
Defined.

Lemma register_no_retry_witness :
  let params := Fake.params "t1" "" "sha256:CA-AAA" false in
  let out := Fake.join Fake.authority params in
  length (issuances (fst out)) <= 1 /\ length (dials (fst out)) <= 2 /\
  map (fun d => fst (fst d)) (dials (fst out)) = [["auth:3025"]; ["auth:3025"]].
Proof.
  intros params out.
  destruct (@register_no_retry Fake.collaborators params (fst out) (snd out)
              (run_traces _ _ _)) as (Hi & Hd & _).
  split; [exact Hi|]. split; [exact Hd | reflexivity].
Defined.

(** A join with a token the authority turns down. *)
Lemma register_propagates_rejection_witness :
  let params := Fake.params "bad" "" "sha256:CA-AAA" false in
  let out := Fake.join Fake.authority params in
  In (1, registerRequest params "bad", Err (Failure "token rejected"))
     (issuances (fst out)) /\
  snd out = Err (Failure "token rejected") /\
  closed 1 (fst out) = built 1 (fst out).
Proof.
  intros params out.
  assert (Hin : In (1, registerRequest params "bad", Err (Failure "token rejected"))
                   (issuances (fst out)))
    by (vm_compute; left; reflexivity).
  split; [exact Hin|].
  exact (@register_propagates_rejection Fake.collaborators params (fst out) (snd out)
           1 (registerRequest params "bad") (Failure "token rejected")
           (run_traces _ _ _) Hin).
Defined.

(** A join whose token is the path of the token file. *)
Lemma register_request_contents_witness :
  let params := Fake.params "/etc/token" "" "sha256:CA-AAA" false in
  let out := Fake.join Fake.authority params in
  In (1, registerRequest params "mytoken", Ok Fake.B1) (issuances (fst out)) /\
  RegisterUsingTokenRequest.HostID (registerRequest params "mytoken") = "host1.example" /\
  RegisterUsingTokenRequest.Token (registerRequest params "mytoken")
  = strings.TrimSpace (string_of_bytes
                         (bytes_of_string ("mytoken" ++ String "010" ""))).
Proof.
  intros params out.
  assert (Hin : In (1, registerRequest params "mytoken", Ok Fake.B1)
                   (issuances (fst out)))
    by (vm_compute; left; reflexivity).
  destruct (@register_request_contents Fake.collaborators params (fst out) (snd out)
              1 (registerRequest params "mytoken") (Ok Fake.B1)
              (run_traces _ _ _) Hin) as (Hh & _ & _ & _ & _ & Hfile).
  split; [exact Hin|]. split; [exact Hh|].
  exact (proj2 (Hfile "/etc/token" (bytes_of_string ("mytoken" ++ String "010" ""))
                  ltac:(vm_compute; left; reflexivity))).
Defined.

Lemma methods_called_on_open_clients_witness :
  let params := Fake.params "t1" "" "sha256:CA-AAA" false in
  let out := Fake.join Fake.authority params in
  collect usedOn (fst out) = [0; 1] /\ wellUsed (fst out) [] = true.
Proof.
  intros params out. split; [reflexivity|].
  exact (@methods_called_on_open_clients Fake.collaborators params (fst out) (snd out)
           (run_traces _ _ _)).
Defined.

Lemma readToken_never_fails_witness :
  let out := Fake.resolve Fake.authority "/etc/missing" in
  (exists tok : string, snd out = Ok tok) /\ length (fst out) <= 1 /\
  networkCalls (fst out) = [].
Proof.
  intro out.
  exact (readToken_never_fails "/etc/missing" (fst out) (snd out) (run_traces _ _ _)).
Defined.

(** A token file with a tab and a space in front of the token and a space,
    a carriage return and a line feed behind it. *)
Lemma token_file_round_trip_witness :
  let out := Fake.resolve Fixtures.withFiles "/etc/padded" in
  In ("/etc/padded", Ok Fixtures.padded) (fileReads (fst out)) /\
  strings.Trimmed (string_of_bytes Fixtures.padded) "s3cr3t" /\
  snd out = Ok "s3cr3t".
Proof.
  intro out.
  assert (Hin : In ("/etc/padded", Ok Fixtures.padded) (fileReads (fst out)))
    by (vm_compute; left; reflexivity).
  assert (Htrim : strings.Trimmed (string_of_bytes Fixtures.padded) "s3cr3t").
  { exists [9; 32]%N, [32; 13; 10]%N.
    split; [reflexivity|].
    split; [exists [[9]; [32]]%N; split; [| reflexivity];
            repeat constructor; vm_compute; tauto|].
    split; [exists [[10]; [13]; [32]]%N; split; [| reflexivity];
            repeat constructor; vm_compute; tauto|].
    split; reflexivity. }
  split; [exact Hin|]. split; [exact Htrim|].
  exact (token_file_round_trip "/etc/padded" (fst out) (snd out) Fixtures.padded
           "s3cr3t" (run_traces _ _ _) Hin Htrim).
Defined.


(** ** The helpers of the tests of the claim mappings *)

(** One attribute mapping, as the loop of
    [claimMappingsToAttributeMappings] builds it. *)
Lemma claimMappings_loop (l : list ClaimMapping.t) (acc : slice.t AttributeMapping.t) :
  let conv := fun m =>
    AttributeMapping.Build (ClaimMapping.Claim m) (ClaimMapping.Value m)
      (Some (slice.elems (ClaimMapping.Roles m))) in
  let out := fold_left
    (fun out m =>
       slice.append out
         [AttributeMapping.Build (ClaimMapping.Claim m) (ClaimMapping.Value m)
            (slice.append (Some []) (slice.elems (ClaimMapping.Roles m)))])
    l acc in
  slice.elems out = slice.elems acc ++ map conv l /\
  (out = None <-> acc = None /\ l = []).
Proof.
  intros conv out. subst out. revert acc.
  induction l as [| m l IH]; intro acc; cbn [fold_left map].
  - rewrite app_nil_r. split; [reflexivity|]. tauto.
  - destruct (IH (slice.append acc
                    [AttributeMapping.Build (ClaimMapping.Claim m) (ClaimMapping.Value m)
                       (slice.append (Some []) (slice.elems (ClaimMapping.Roles m)))]))
      as (He & Hn).
    split.
    + rewrite He. subst conv.
      destruct acc as [a |]; simpl; [rewrite <- app_assoc|]; reflexivity.
    + rewrite Hn. split; [| intros (_ & Hl); discriminate].
      intros (Hacc & _). destruct acc; discriminate.
Qed.

(** [claimMappingsToAttributeMappings] gives one attribute mapping per claim
    mapping, in the same order, with the claim as name, the same value and
    the same roles.  The result is the nil slice exactly when there is no
    claim mapping, the roles of a result are never nil, and two inputs with
    the same result hold the same claims, values and roles. *)
Theorem claimMappings_conversion (input : slice.t ClaimMapping.t) :
  let out := claimMappingsToAttributeMappings input in
  length (slice.elems out) = length (slice.elems input) /\
  (forall (i : nat) (m : ClaimMapping.t),
     nth_error (slice.elems input) i = Some m ->
     exists a : AttributeMapping.t,
       nth_error (slice.elems out) i = Some a /\
       AttributeMapping.Name a = ClaimMapping.Claim m /\
       AttributeMapping.Value a = ClaimMapping.Value m /\
       AttributeMapping.Roles a = Some (slice.elems (ClaimMapping.Roles m))) /\
  (out = None <-> slice.elems input = []) /\
  (forall other : slice.t ClaimMapping.t,
     claimMappingsToAttributeMappings other = out ->
     map (fun m => (ClaimMapping.Claim m, ClaimMapping.Value m,
                    slice.elems (ClaimMapping.Roles m))) (slice.elems other)
     = map (fun m => (ClaimMapping.Claim m, ClaimMapping.Value m,
                      slice.elems (ClaimMapping.Roles m))) (slice.elems input)).
Proof.
  intro out. subst out. unfold claimMappingsToAttributeMappings.
  destruct (claimMappings_loop (slice.elems input) None) as (He & Hn).
  cbn [slice.elems app] in He.
  split; [rewrite He; apply length_map|].
  split; [| split].
  - intros i m Hi. rewrite He.
    eexists. split; [apply map_nth_error; exact Hi|].
    repeat split; reflexivity.
  - rewrite Hn. tauto.
  - intros other Hother.
    destruct (claimMappings_loop (slice.elems other) None) as (He' & _).
    cbn [slice.elems app] in He'.
    unfold claimMappingsToAttributeMappings in Hother.
    rewrite Hother, He in He'.
    apply (f_equal (map (fun a => (AttributeMapping.Name a, AttributeMapping.Value a,
                                   slice.elems (AttributeMapping.Roles a))))) in He'.
    rewrite !map_map in He'. cbn in He'. symmetry. exact He'.
Qed.

Lemma mapGet_mapSet {V : Type} (k k' : string) (v : V) (m : gomap V) :
  mapGet k' (mapSet k v m) = if k =? k' then Some v else mapGet k' m.
Proof.
  induction m as [| [k0 v0] m IH]; simpl.
  - reflexivity.
  - destruct (k0 =? k) eqn:E0; simpl.
    + apply String.eqb_eq in E0. subst k0.
      destruct (k =? k'); reflexivity.
    + destruct (k0 =? k') eqn:E1; [| exact IH].
      apply String.eqb_eq in E1. subst k0. rewrite String.eqb_sym, E0. reflexivity.
Qed.

Lemma mapSet_length_new {V : Type} (k : string) (v : V) (m : gomap V) :
  mapGet k m = None -> length (mapSet k v m) = S (length m).
Proof.
  induction m as [| [k0 v0] m IH]; simpl; [reflexivity|].
  destruct (k0 =? k); [discriminate|]. intro H. simpl. rewrite (IH H). reflexivity.
Qed.

Lemma mapGet_In {V : Type} (k : string) (v : V) (m : gomap V) :
  mapGet k m = Some v -> In (k, v) m.
Proof.
  induction m as [| [k0 v0] m IH]; simpl; [discriminate|].
  destruct (k0 =? k) eqn:E.
  - apply String.eqb_eq in E. intro H. inversion H; subst. left. reflexivity.
  - intro H. right. exact (IH H).
Qed.

Lemma mapGet_absent {V : Type} (k : string) (m : gomap V) :
  ~ In k (map fst m) -> mapGet k m = None.
Proof.
  induction m as [| [k0 v0] m IH]; simpl; [reflexivity|].
  intro H. destruct (k0 =? k) eqn:E.
  - apply String.eqb_eq in E. tauto.
  - apply IH. tauto.
Qed.

(** The loop of [claimsToAttributes], from any map reached so far. *)
Lemma claimsToAttributes_loop (claims : gomap ClaimValue) :
  forall info : AssertionInfo.t,
    let out := fold_left
      (fun acc cv =>
         match acc with
         | None => None
         | Some info =>
             match attributeOf (fst cv) (snd cv) with
             | Some attr =>
                 Some (AssertionInfo.Build
                         (mapSet (fst cv) attr (AssertionInfo.Values info)))
             | None => None
             end
         end)
      claims (Some info) in
    (out = None <-> exists k : string, In (k, VOther) claims) /\
    (NoDup (map fst claims) ->
     (forall k : string, In k (map fst claims) ->
        mapGet k (AssertionInfo.Values info) = None) ->
     forall info' : AssertionInfo.t,
       out = Some info' ->
       length (AssertionInfo.Values info')
       = length (AssertionInfo.Values info) + length claims /\
       forall k : string,
         mapGet k (AssertionInfo.Values info')
         = match mapGet k claims with
           | Some v => attributeOf k v
           | None => mapGet k (AssertionInfo.Values info)
           end).
Proof.
  induction claims as [| [k0 v0] claims IH]; intro info; simpl.
  - split.
    + split; [discriminate | intros (k & [])].
    + intros _ _ info' Heq. inversion Heq; subst. split; [lia | reflexivity].
  - destruct (attributeOf k0 v0) as [attr |] eqn:Hattr.
    + destruct (IH (AssertionInfo.Build (mapSet k0 attr (AssertionInfo.Values info))))
        as (Hnone & Hsome).
      split.
      * rewrite Hnone. split.
        -- intros (k & Hk). exists k. right. exact Hk.
        -- intros (k & [Hk | Hk]); [| exists k; exact Hk].
           inversion Hk; subst. discriminate.
      * intros Hnd Hfresh info' Heq.
        inversion Hnd as [| ? ? Hnotin Hnd']; subst.
        destruct (Hsome Hnd') with (info' := info') as (Hlen & Hget).
        -- intros k Hk. cbn [AssertionInfo.Values]. rewrite mapGet_mapSet.
           destruct (k0 =? k) eqn:E; [| apply Hfresh; right; exact Hk].
           apply String.eqb_eq in E. subst k. contradiction.
        -- exact Heq.
        -- cbn [AssertionInfo.Values] in Hlen, Hget. split.
           ++ rewrite Hlen, mapSet_length_new by (apply Hfresh; left; reflexivity). lia.
           ++ intro k. rewrite Hget, mapGet_mapSet.
              destruct (k0 =? k) eqn:E.
              ** apply String.eqb_eq in E. subst k.
                 rewrite (mapGet_absent k0 claims Hnotin). symmetry. exact Hattr.
              ** reflexivity.
    + assert (Hstuck : forall l : gomap ClaimValue,
                fold_left
                  (fun acc cv =>
                     match acc with
                     | None => None
                     | Some info =>
                         match attributeOf (fst cv) (snd cv) with
                         | Some attr =>
                             Some (AssertionInfo.Build
                                     (mapSet (fst cv) attr (AssertionInfo.Values info)))
                         | None => None
                         end
                     end) l None = None).
      { induction l as [| x l IHl]; simpl; [reflexivity | exact IHl]. }
      rewrite Hstuck. split.
      * split; [| reflexivity]. intros _. exists k0. left.
        destruct v0; try discriminate. reflexivity.
      * intros _ _ info' Heq. discriminate.
Qed.

(** [claimsToAttributes] panics exactly when some claim holds a value that is
    neither a string nor a slice of strings, whatever the order of the
    visit. *)
Theorem claimsToAttributes_panics_iff (claims : gomap ClaimValue) :
  claimsToAttributes claims = None <-> exists k : string, In (k, VOther) claims.
Proof.
  exact (proj1 (claimsToAttributes_loop claims (AssertionInfo.Build []))).
Qed.

(** When [claimsToAttributes] returns, its map has one attribute per claim
    under the key of the claim, named after that key, and no other key: a
    string gives the one value, a slice of strings its elements in order, and
    a slice with no element the nil slice of values. *)
Theorem claimsToAttributes_lookup
    (claims : gomap ClaimValue) (info : AssertionInfo.t) :
  NoDup (map fst claims) ->
  claimsToAttributes claims = Some info ->
  length (AssertionInfo.Values info) = length claims /\
  forall k : string,
    match mapGet k claims with
    | None => mapGet k (AssertionInfo.Values info) = None
    | Some v =>
        exists attr : Attribute.t,
          mapGet k (AssertionInfo.Values info) = Some attr /\
          Attribute.Name attr = k /\
          slice.elems (Attribute.Values attr)
          = match v with
            | VString val => [AttributeValue.Build val]
            | VStrings val => map AttributeValue.Build (slice.elems val)
            | VOther => []
            end /\
          (Attribute.Values attr = None <->
           exists val : slice.t string, v = VStrings val /\ slice.elems val = [])
    end.
Proof.
  intros Hnd Heq.
  destruct (claimsToAttributes_loop claims (AssertionInfo.Build [])) as (_ & H).
  destruct (H Hnd (fun _ _ => eq_refl) info Heq) as (Hlen & Hget).
  split; [exact Hlen|].
  intro k. specialize (Hget k).
  destruct (mapGet k claims) as [v |] eqn:Hk; [| exact Hget].
  assert (Hvals : forall (l : list string) (acc : slice.t AttributeValue.t),
            let out := fold_left
                         (fun vs v => slice.append vs [AttributeValue.Build v]) l acc in
            slice.elems out = slice.elems acc ++ map AttributeValue.Build l /\
            (out = None <-> acc = None /\ l = [])).
  { induction l as [| x l IHl]; intro acc; cbn [fold_left map].
    - rewrite app_nil_r. split; [reflexivity | tauto].
    - destruct (IHl (slice.append acc [AttributeValue.Build x])) as (He & Hn).
      split.
      + rewrite He. destruct acc; simpl; [rewrite <- app_assoc|]; reflexivity.
      + rewrite Hn. split; [| intros (_ & Hl); discriminate].
        intros (Hacc & _). destruct acc; discriminate. }
  destruct v as [val | val |]; simpl in Hget.
  - eexists. split; [exact Hget|]. split; [reflexivity|]. split; [reflexivity|].
    split; [discriminate|]. intros (val' & Hv & _). discriminate.
  - destruct (Hvals (slice.elems val) None) as (He & Hn). cbn in He.
    eexists. split; [exact Hget|]. split; [reflexivity|]. split; [exact He|].
    cbn [Attribute.Values]. rewrite Hn. split.
    + intros (_ & Hl). exists val. split; [reflexivity | exact Hl].
    + intros (val' & Hv & Hl). inversion Hv; subst. split; [reflexivity | exact Hl].
  - exfalso.
    assert (Hin : exists k' : string, In (k', VOther) claims)
      by (exists k; exact (mapGet_In k VOther claims Hk)).
    apply (proj1 (claimsToAttributes_loop claims (AssertionInfo.Build []))) in Hin.
    unfold claimsToAttributes in Heq. congruence.
Qed.

(** For [claimsToAttributes] a claim that is one string and a claim that is
    the slice of that one string are the same: turning every string of the
    claims into such a slice changes nothing in the result. *)
Theorem claimsToAttributes_string_as_slice (claims : gomap ClaimValue) :
  claimsToAttributes (asSlices claims) = claimsToAttributes claims.
Proof.
  unfold claimsToAttributes, asSlices.
  generalize (Some (AssertionInfo.Build [])).
  induction claims as [| [k v] claims IH]; intro acc; [reflexivity|].
  cbn [map fold_left]. rewrite <- IH. f_equal.
  destruct acc as [info |]; [| destruct v; reflexivity].
  destruct v; reflexivity.
Qed.

(** The mappings of the test case [simple mappings]. *)
Lemma claimMappings_conversion_witness :
  let input := Some [ ClaimMapping.Build "role" "admin" (Some ["admin"; "bob"]);
                      ClaimMapping.Build "role" "user" None ] in
  let out := claimMappingsToAttributeMappings input in
  length (slice.elems out) = 2 /\
  exists a : AttributeMapping.t,
    nth_error (slice.elems out) 1 = Some a /\
    AttributeMapping.Name a = "role" /\
    AttributeMapping.Value a = "user" /\
    AttributeMapping.Roles a = Some [].
Proof.
  intros input out.
  destruct (claimMappings_conversion input) as (Hlen & Hnth & _).
  split; [exact Hlen|].
  exact (Hnth 1 (ClaimMapping.Build "role" "user" None) eq_refl).
Defined.

(** Claims with a value that is neither a string nor a slice of strings. *)
Lemma claimsToAttributes_panics_iff_witness :
  claimsToAttributes [("role", VString "admin"); ("exp", VOther)] = None.
Proof.
  apply (proj2 (claimsToAttributes_panics_iff
                  [("role", VString "admin"); ("exp", VOther)])).
  exists "exp". right. left. reflexivity.
Defined.

(** The claims of the test input with two values for [role]. *)
Lemma claimsToAttributes_lookup_witness :
  let claims := [ ("role", VStrings (Some ["admin-hello"; "admin-ola"]));
                  ("a", VString "b") ] in
  exists info : AssertionInfo.t,
    claimsToAttributes claims = Some info /\
    length (AssertionInfo.Values info) = 2 /\
    exists attr : Attribute.t,
      mapGet "role" (AssertionInfo.Values info) = Some attr /\
      Attribute.Name attr = "role" /\
      slice.elems (Attribute.Values attr)
      = [AttributeValue.Build "admin-hello"; AttributeValue.Build "admin-ola"].
Proof.
  intro claims.
  assert (Hnd : NoDup (map fst claims)).
  { constructor; [intros [H | []]; discriminate|].
    constructor; [intros [] | constructor]. }
  eexists. split; [reflexivity|].
  destruct (claimsToAttributes_lookup claims _ Hnd eq_refl) as (Hlen & Hget).
  split; [exact Hlen|].
  destruct (Hget "role") as (attr & Ha & Hn & Hv & _).
  exists attr. repeat split; assumption.
Defined.
